(** * AFCOTEC Mini-API (server.py): counters, clients and the connection string

    A shallow embedding of [server.py].  The relational store is modelled at
    the level of the SQL statements the endpoints issue: the [counters] table
    is a finite map keyed by its primary key, the [clients] table a list of
    rows with a serial id.  A session keeps the committed database and the
    pending one apart, so that leaving a [with SessionLocal() as db] block
    without [db.commit()] discards the pending statements.

    Python integers are unbounded [Z]; the columns [next] and [padding] are
    32-bit integers, and the store refuses a value outside their range.  The
    serials behind the [id] columns are not part of a transaction: a value
    they hand out is gone even when the insert is rejected or rolled back.
    Idealisations: memory is unbounded, the serials never run out, and one
    request runs at a time. *)

From Stdlib Require Import ZArith String Ascii DecimalString DecimalZ DecimalPos Lia.
From stdpp Require Import gmap strings list fin_maps sorting.

Local Open Scope string_scope.
Local Open Scope Z_scope.

(** ** Python built-ins used by the server *)

Module Py.

(** Exceptions that can leave an endpoint. *)
Inductive exn : Type :=
  | ValueError
  | TypeError
  | RuntimeError
  | IntegrityError
  | DataError
  | OperationalError
  | HTTPException (status_code : Z) (detail : string)
  | Unmodelled.

Inductive result (A : Type) : Type :=
  | Ok (a : A)
  | Raise (e : exn).
Arguments Ok {A} a.
Arguments Raise {A} e.

(** The decimal rendering of an integer. *)
Definition decimal (n : Z) : string := NilZero.string_of_int (Z.to_int n).

(** Converting an int of more than 4300 digits to a string raises
    [ValueError] ([sys.int_info.default_max_str_digits]). *)
Definition str_limit : Z := 10 ^ 4300.

Definition exceeds_max_str_digits (n : Z) : bool := str_limit <=? Z.abs n.
#[global] Arguments exceeds_max_str_digits : simpl never.

(** [str(n)] for an int. *)
Definition str (n : Z) : result string :=
  if exceeds_max_str_digits n then Raise ValueError else Ok (decimal n).

(** [sub in s] for strings. *)
Fixpoint contains (sub s : string) : bool :=
  String.prefix sub s ||
  match s with
  | EmptyString => false
  | String _ s' => contains sub s'
  end.

(** [s.startswith(p)]. *)
Definition startswith (s p : string) : bool := String.prefix p s.

Fixpoint skip (n : nat) (s : string) : string :=
  match n, s with
  | O, _ => s
  | S n', String _ s' => skip n' s'
  | S _, EmptyString => EmptyString
  end.

(** [s.replace(old, new, 1)]: the leftmost occurrence only. *)
Fixpoint replace1 (old new s : string) : string :=
  if String.prefix old s then new +:+ skip (String.length old) s
  else match s with
       | EmptyString => EmptyString
       | String c s' => String c (replace1 old new s')
       end.

(** [x or ""] for an optional string: [None] and [""] are both falsy. *)
Definition or_empty (x : option string) : string :=
  match x with
  | Some s => s
  | None => ""
  end.

(** *** The format-spec mini-language, as far as [0{width}d] needs it

    CPython reads a format spec left to right: fill and alignment, sign,
    [z], [#], the [0] flag, the width (a run of decimal digits), grouping,
    precision, and at most one trailing character for the presentation type.
    The only spec the server builds is ["0" + str(padding) + "d"], which
    starts with the [0] flag; the fields before the flag and between width
    and type are therefore always absent and are left out here. *)

Definition is_digit (c : ascii) : bool :=
  ((48 <=? Z.of_nat (nat_of_ascii c)) && (Z.of_nat (nat_of_ascii c) <=? 57))%Z.

Definition digit_val (c : ascii) : Z := (Z.of_nat (nat_of_ascii c) - 48)%Z.

(** The digits at the front of [s], accumulated into [acc]; returns the value,
    whether a digit was consumed, and the rest. *)
Fixpoint scan_digits (acc : Z) (seen : bool) (s : string) : Z * bool * string :=
  match s with
  | String c s' =>
      if is_digit c then scan_digits (10 * acc + digit_val c)%Z true s'
      else (acc, seen, s)
  | EmptyString => (acc, seen, s)
  end.

(** The largest [Py_ssize_t] (64-bit build). *)
Definition PY_SSIZE_T_MAX : Z := 2 ^ 63 - 1.

(** A width is read into a [Py_ssize_t]: a run of digits whose value does
    not fit raises [ValueError] (too many decimal digits in format string).
    CPython tests this digit by digit; as the accumulated value only grows,
    testing the final value is the same. *)
Definition get_integer (s : string) : result (Z * bool * string) :=
  let '(w, seen, rest) := scan_digits 0 false s in
  if PY_SSIZE_T_MAX <? w then Raise ValueError else Ok (w, seen, rest).

Record format_spec : Type := {
  fs_zero : bool;
  fs_width : option Z;
  fs_type : option ascii;
}.

Definition parse_format_spec (spec : string) : result format_spec :=
  let '(zero, rest) :=
    match spec with
    | String "0" rest => (true, rest)
    | _ => (false, spec)
    end in
  match get_integer rest with
  | Raise e => Raise e
  | Ok (w, seen, rest) =>
      let w := if seen then Some w else None in
      match rest with
      | EmptyString => Ok {| fs_zero := zero; fs_width := w; fs_type := None |}
      | String c EmptyString =>
          Ok {| fs_zero := zero; fs_width := w; fs_type := Some c |}
      | String _ (String _ _) => Raise ValueError (* Invalid format specifier *)
      end
  end.

Fixpoint zeros (n : nat) : string :=
  match n with
  | O => EmptyString
  | S n' => String "0" (zeros n')
  end.

(** [format(n, spec)] for an int and presentation type [d] (or none).  With
    the [0] flag the sign comes first and the zeros sit between sign and
    digits; without it the field is right-aligned with spaces, which the
    server never asks for and which is left [Unmodelled]. *)
Definition format_int (n : Z) (spec : string) : result string :=
  match parse_format_spec spec with
  | Raise e => Raise e
  | Ok f =>
      match fs_type f with
      | None | Some "d"%char =>
          match fs_width f with
          | None => str n
          | Some w =>
              if fs_zero f then
                match str (Z.abs n) with
                | Raise e => Raise e
                | Ok digits =>
                    let sign := if (n <? 0)%Z then "-" else "" in
                    let used :=
                      (String.length sign + String.length digits)%nat in
                    Ok (sign +:+ zeros (Z.to_nat w - used)%nat +:+ digits)
                end
              else Raise Unmodelled
          end
      | Some _ => Raise Unmodelled
      end
  end.

End Py.

Import Py.

(** ** Helpers *)

(** [formatted_number(next_val, prefix, padding)]: the f-string
    [f"{next_val:0{padding}d}"] first renders [padding] with [str], then
    formats [next_val] with the spec ["0" + str(padding) + "d"]. *)
Definition formatted_number (next_val : Z) (prefix : string) (padding : Z)
  : result string :=
  let num :=
    if negb (padding =? 0) && (0 <=? next_val)
    then match str padding with
         | Raise e => Raise e
         | Ok width => format_int next_val ("0" +:+ width +:+ "d")
         end
    else str next_val in
  match num with
  | Ok num => Ok (prefix +:+ num)
  | Raise e => Raise e
  end.

(** [zero_pad] as the specification words it: left-padded with ['0'] to width
    [p] when [p > 0] and [n >= 0], no padding otherwise. *)
Definition zero_pad (n p : Z) : string :=
  if (0 <? p) && (0 <=? n)
  then zeros (Z.to_nat p - String.length (decimal n)) +:+ decimal n
  else decimal n.

(** ** Database URL normalization (module level) *)

(** [os.getenv(key, default)]. *)
Definition getenv (environ : gmap string string) (key dflt : string) : string :=
  default dflt (environ !! key).

Definition DATABASE_URL (environ : gmap string string) : result string :=
  let raw_url := getenv environ "DATABASE_URL" "" in
  if String.eqb raw_url "" then Raise RuntimeError
  else
    let raw_url :=
      if negb (contains "sslmode=" raw_url) then
        let sep := if contains "?" raw_url then "&" else "?" in
        raw_url +:+ sep +:+ "sslmode=require"
      else raw_url in
    if startswith raw_url "postgresql://"
    then Ok (replace1 "postgresql://" "postgresql+psycopg://" raw_url)
    else Ok raw_url.

(** ** Models (tables) and schemas (request and response bodies) *)

(** A row of [counters]; the primary key [type] is the key of the map. *)
Module Counter.
Record t : Type := { next : Z; prefix : string; padding : Z }.
End Counter.

(** A row of [clients]; [address], [email] and [phone] are nullable. *)
Module Client.
Record t : Type := {
  id : Z;
  name : string;
  address : option string;
  email : option string;
  phone : option string;
}.
End Client.

Module CounterIn.
Record t : Type := { next : Z; prefix : string; padding : Z }.
End CounterIn.

Module CounterOut.
Record t : Type := { type : string; next : Z; prefix : string; padding : Z }.
End CounterOut.

Record TakeNextIn : Type := { doc_type : string }.
Record TakeNextOut : Type := { formatted : string }.

Module ClientIn.
Record t : Type := {
  name : string;
  address : option string;
  email : option string;
  phone : option string;
}.
End ClientIn.

Module ClientOut.
Record t : Type := {
  id : Z;
  name : string;
  address : string;
  email : string;
  phone : string;
}.
End ClientOut.

(** The database: both tables and the serial behind [clients.id]. *)
Record database : Type := {
  counters : gmap string Counter.t;
  clients : list Client.t;
  clients_id_seq : Z;
}.

Definition set_counters (f : gmap string Counter.t → gmap string Counter.t)
  (d : database) : database :=
  {| counters := f (counters d); clients := clients d;
     clients_id_seq := clients_id_seq d |}.

(** [d] with the serial at [n]. *)
Definition with_serial (n : Z) (d : database) : database :=
  {| counters := counters d; clients := clients d; clients_id_seq := n |}.

(** The range of a 32-bit [INTEGER] column. *)
Definition in_int4 (n : Z) : bool := (-2147483648 <=? n) && (n <=? 2147483647).

(** ** SQL statements

    A statement maps the database the transaction sees to what it returns or
    raises and the database after it.  A statement that raises leaves the
    tables as they were, but not a serial it has drawn from. *)

Definition stmt (A : Type) : Type := database → result A * database.

Definition BEGIN : stmt unit := λ d, (Ok tt, d).

(** [SELECT type, next, prefix, padding FROM counters WHERE type=:t FOR UPDATE],
    then [fetchone()]. *)
Definition select_counter_for_update (t : string)
  : stmt (option (string * Z * string * Z)) := λ d,
  (Ok ((λ r, (t, Counter.next r, Counter.prefix r, Counter.padding r))
         <$> counters d !! t), d).

(** [INSERT INTO counters(type,next,prefix,padding) VALUES (:t,:n,:p,:pad)];
    a value outside the integer columns is refused, and the primary key
    rejects a second row for [t]. *)
Definition insert_counter (t : string) (n : Z) (p : string) (pad : Z)
  : stmt unit := λ d,
  if negb (in_int4 n && in_int4 pad) then (Raise DataError, d)
  else
    match counters d !! t with
    | Some _ => (Raise IntegrityError, d)
    | None =>
        (Ok tt, set_counters
                  (insert t {| Counter.next := n; Counter.prefix := p;
                               Counter.padding := pad |}) d)
    end.

(** [UPDATE counters SET next=:n WHERE type=:t]; a value outside the integer
    column is refused. *)
Definition update_counter_next (t : string) (n : Z) : stmt unit := λ d,
  if negb (in_int4 n) then (Raise DataError, d)
  else
    (Ok tt, set_counters
              (alter (λ r, {| Counter.next := n;
                              Counter.prefix := Counter.prefix r;
                              Counter.padding := Counter.padding r |}) t) d).

(** [INSERT ... ON CONFLICT (type) DO UPDATE SET next=EXCLUDED.next,
    prefix=EXCLUDED.prefix, padding=EXCLUDED.padding]; a value outside the
    integer columns is refused. *)
Definition upsert_counter (t : string) (n : Z) (p : string) (pad : Z)
  : stmt unit := λ d,
  if negb (in_int4 n && in_int4 pad) then (Raise DataError, d)
  else
    (Ok tt, set_counters
              (insert t {| Counter.next := n; Counter.prefix := p;
                           Counter.padding := pad |}) d).

(** [ORDER BY type]: the byte order of the keys. *)
Definition type_le (a b : string * Counter.t) : Prop := String.leb a.1 b.1 = true.

#[global] Instance type_le_dec : RelDecision type_le.
Proof. intros a b. unfold type_le. apply _. Defined.

(** [SELECT type, next, prefix, padding FROM counters ORDER BY type], then
    [fetchall()]. *)
Definition select_counters_ordered : stmt (list (string * Z * string * Z)) := λ d,
  (Ok ((λ kr : string * Counter.t,
          (kr.1, Counter.next kr.2, Counter.prefix kr.2, Counter.padding kr.2))
         <$> merge_sort type_le (map_to_list (counters d))), d).

(** [SELECT id FROM clients WHERE name=:n AND email=:e], then [fetchone()].
    [e = None] is Python's [None], sent as NULL: [email = NULL] holds for no
    row.  A row whose [email] is NULL matches no [e] either. *)
Definition client_matches (n : string) (e : option string) (r : Client.t) : bool :=
  String.eqb (Client.name r) n &&
  match Client.email r, e with
  | Some x, Some y => String.eqb x y
  | _, _ => false
  end.

Definition select_client_id (n : string) (e : option string) : stmt (option Z) :=
  λ d, (Ok (Client.id <$> List.find (client_matches n e) (clients d)), d).

(** [UPDATE clients SET address=:a, phone=:ph WHERE id=:id]. *)
Definition set_address_phone (i : Z) (a ph : string) (r : Client.t) : Client.t :=
  if Client.id r =? i
  then {| Client.id := Client.id r; Client.name := Client.name r;
          Client.address := Some a; Client.email := Client.email r;
          Client.phone := Some ph |}
  else r.

Definition update_client (i : Z) (a ph : string) : stmt unit := λ d,
  (Ok tt,
   {| counters := counters d;
      clients := set_address_phone i a ph <$> clients d;
      clients_id_seq := clients_id_seq d |}).

(** [INSERT INTO clients(name,address,email,phone) VALUES (:n,:a,:e,:ph)
    RETURNING id], then [fetchone()].  The id is drawn from the serial
    first; then the primary key and [uq_clients_name_email] reject a
    clashing row, the drawn id being lost. *)
Definition insert_client (n a e ph : string) : stmt Z := λ d,
  let i := clients_id_seq d in
  if existsb (λ r, (Client.id r =? i) || client_matches n (Some e) r) (clients d)
  then (Raise IntegrityError, with_serial (i + 1) d)
  else
    (Ok i,
     {| counters := counters d;
        clients :=
          clients d ++
          [{| Client.id := i; Client.name := n; Client.address := Some a;
              Client.email := Some e; Client.phone := Some ph |}];
        clients_id_seq := i + 1 |}).

(** [SELECT id,name,address,email,phone FROM clients WHERE id=:i], then
    [fetchone()]. *)
Definition select_client_by_id (i : Z) : stmt (option Client.t) := λ d,
  (Ok (List.find (λ r, Client.id r =? i) (clients d)), d).

(** ** Sessions

    [SessionLocal()] opens a session on the committed database.  Statements
    act on the pending database, [db.commit()] publishes it, and leaving the
    [with] block (normally or by an exception) closes the session, which
    drops whatever is still pending.  A serial a statement has drawn from is
    the exception: its new value is committed at once.  [calls] counts the
    round trips to the store made so far; it indexes the fault plan
    below. *)

Record session : Type := {
  committed : database;
  pending : database;
  calls : nat;
}.

Definition Tx (A : Type) : Type := session → result A * session.

#[global] Instance Tx_ret : MRet Tx := λ A a s, (Ok a, s).

#[global] Instance Tx_bind : MBind Tx := λ A B k m s,
  match m s with
  | (Ok a, s') => k a s'
  | (Raise e, s') => (Raise e, s')
  end.

(** A Python-level computation inside the block. *)
Definition lift {A} (r : result A) : Tx A := λ s, (r, s).

(** [try: body except E: handler]; [handler e = None] when [e] is not
    caught. *)
Definition try_except {A} (body : Tx A) (handler : exn → option (Tx A)) : Tx A :=
  λ s,
  match body s with
  | (Ok a, s') => (Ok a, s')
  | (Raise e, s') =>
      match handler e with
      | Some h => h s'
      | None => (Raise e, s')
      end
  end.

(** [db.rollback()]. *)
Definition rollback : Tx unit := λ s,
  (Ok tt, {| committed := committed s; pending := committed s; calls := calls s |}).

(** [with SessionLocal() as db: body]. *)
Definition with_session {A} (body : Tx A) (d : database) : result A * database :=
  let '(r, s) := body {| committed := d; pending := d; calls := O |} in
  (r, committed s).

Section Endpoints.

(** [fault k] tells whether the [k]-th round trip to the store (counted from
    0 within a request) is lost, which raises [OperationalError] without any
    effect on the store. *)
Context (fault : nat → bool).

(** [db.execute(text(...), params)]. *)
Definition execute {A} (q : stmt A) : Tx A := λ s,
  let k := calls s in
  if fault k then
    (Raise OperationalError,
     {| committed := committed s; pending := pending s; calls := S k |})
  else
    let '(r, d) := q (pending s) in
    (r, {| committed := with_serial (clients_id_seq d) (committed s);
           pending := d; calls := S k |}).

(** [db.commit()]. *)
Definition commit : Tx unit := λ s,
  let k := calls s in
  if fault k then
    (Raise OperationalError,
     {| committed := committed s; pending := pending s; calls := S k |})
  else
    (Ok tt, {| committed := pending s; pending := pending s; calls := S k |}).

(** *** POST /take_next_number *)
Definition take_next_number (payload : TakeNextIn)
  : database → result TakeNextOut * database :=
  let doc_type := doc_type payload in
  with_session (
    _ ← execute BEGIN;
    row ← execute (select_counter_for_update doc_type);
    '(next_val, prefix, padding) ←
      match row with
      | None =>
          _ ← execute (insert_counter doc_type 1 "" 0);
          mret (1, "", 0)
      | Some (_, next_val, prefix, padding) => mret (next_val, prefix, padding)
      end;
    formatted ← lift (formatted_number next_val prefix padding);
    _ ← execute (update_counter_next doc_type (next_val + 1));
    _ ← commit;
    mret {| formatted := formatted |}).

(** *** GET /counters *)
Definition list_counters : database → result (list CounterOut.t) * database :=
  with_session (
    rows ← execute select_counters_ordered;
    mret ((λ r : string * Z * string * Z,
             {| CounterOut.type := r.1.1.1; CounterOut.next := r.1.1.2;
                CounterOut.prefix := r.1.2; CounterOut.padding := r.2 |})
            <$> rows)).

(** *** PUT /counters/{doc_type} *)
Definition set_counter (doc_type : string) (c : CounterIn.t)
  : database → result CounterOut.t * database :=
  with_session (
    _ ← execute (upsert_counter doc_type (CounterIn.next c) (CounterIn.prefix c)
                   (CounterIn.padding c));
    _ ← commit;
    mret {| CounterOut.type := doc_type; CounterOut.next := CounterIn.next c;
            CounterOut.prefix := CounterIn.prefix c;
            CounterOut.padding := CounterIn.padding c |}).

(** *** POST /clients *)
Definition upsert_client (c : ClientIn.t)
  : database → result ClientOut.t * database :=
  with_session (
    try_except (
      row ← execute (select_client_id (ClientIn.name c) (ClientIn.email c));
      cid ←
        match row with
        | Some row0 =>
            _ ← execute (update_client row0 (or_empty (ClientIn.address c))
                           (or_empty (ClientIn.phone c)));
            _ ← commit;
            mret row0
        | None =>
            r ← execute (insert_client (ClientIn.name c)
                           (or_empty (ClientIn.address c))
                           (or_empty (ClientIn.email c))
                           (or_empty (ClientIn.phone c)));
            _ ← commit;
            mret r
        end;
      newrow ← execute (select_client_by_id cid);
      match newrow with
      | Some r =>
          mret {| ClientOut.id := Client.id r; ClientOut.name := Client.name r;
                  ClientOut.address := or_empty (Client.address r);
                  ClientOut.email := or_empty (Client.email r);
                  ClientOut.phone := or_empty (Client.phone r) |}
      | None => lift (Raise TypeError)
      end)
    (λ e,
       match e with
       | IntegrityError =>
           Some (_ ← rollback;
                 lift (Raise (HTTPException 400 "Client unique constraint failed")))
       | _ => None
       end)).

End Endpoints.

(** The store answers every round trip. *)
Definition reliable : nat → bool := λ _, false.

(** The [k]-th round trip is lost. *)
Definition lost (k : nat) : nat → bool := λ i, Nat.eqb i k.

Definition empty_db : database :=
  {| counters := ∅; clients := []; clients_id_seq := 1 |}.



(** ** Vocabulary of the properties *)

(** The counter an allocation for [t] works on: the stored row, or the row
    [take_next_number] creates when there is none. *)
Definition current (d : database) (t : string) : Counter.t :=
  default {| Counter.next := 1; Counter.prefix := ""; Counter.padding := 0 |}
          (counters d !! t).

Definition bump (r : Counter.t) : Counter.t :=
  {| Counter.next := Counter.next r + 1; Counter.prefix := Counter.prefix r;
     Counter.padding := Counter.padding r |}.

(** The row and the response [set_counter] builds from its body. *)
Definition row_of (c : CounterIn.t) : Counter.t :=
  {| Counter.next := CounterIn.next c; Counter.prefix := CounterIn.prefix c;
     Counter.padding := CounterIn.padding c |}.

Definition out_of (t : string) (c : CounterIn.t) : CounterOut.t :=
  {| CounterOut.type := t; CounterOut.next := CounterIn.next c;
     CounterOut.prefix := CounterIn.prefix c;
     CounterOut.padding := CounterIn.padding c |}.

Definition next_of (d : database) (t : string) : option Z :=
  Counter.next <$> counters d !! t.

(** What the driver rewrite at the end of the normalization does. *)
Definition with_driver (url : string) : string :=
  if startswith url "postgresql://"
  then "postgresql+psycopg://" +:+ skip 13 url
  else url.

(** The response [upsert_client] builds from the row it reads back. *)
Definition client_out (r : Client.t) : ClientOut.t :=
  {| ClientOut.id := Client.id r; ClientOut.name := Client.name r;
     ClientOut.address := or_empty (Client.address r);
     ClientOut.email := or_empty (Client.email r);
     ClientOut.phone := or_empty (Client.phone r) |}.

(** [k] allocations for [t], one request after the other. *)
Fixpoint allocate_seq (k : nat) (t : string) (d : database)
  : list (result TakeNextOut) * database :=
  match k with
  | O => ([], d)
  | S k' =>
      let '(r, d1) := take_next_number reliable {| doc_type := t |} d in
      let '(rs, d2) := allocate_seq k' t d1 in
      (r :: rs, d2)
  end.

(** The operations on counters the system exposes, each with the fault plan
    of its request, and the database after a sequence of them. *)
Inductive op : Type :=
  | Allocate (fault : nat → bool) (doc_type : string)
  | Configure (fault : nat → bool) (doc_type : string) (c : CounterIn.t)
  | ListAll (fault : nat → bool).

Definition step (d : database) (o : op) : database :=
  match o with
  | Allocate fault t => (take_next_number fault {| doc_type := t |} d).2
  | Configure fault t c => (set_counter fault t c d).2
  | ListAll fault => (list_counters fault d).2
  end.

Definition run (ops : list op) (d : database) : database := foldl step d ops.

Definition is_configure (o : op) : bool :=
  match o with
  | Configure _ _ _ => true
  | _ => false
  end.

(** ** The remaining endpoints *)

(** [ORDER BY name]: the byte order of the names; rows with equal names come
    in the order the store picks, here the order of the table. *)
Definition name_le (a b : Client.t) : Prop :=
  String.leb (Client.name a) (Client.name b) = true.

#[global] Instance name_le_dec : RelDecision name_le.
Proof. intros a b. unfold name_le. apply _. Defined.

(** [SELECT id,name,address,email,phone FROM clients ORDER BY name], then
    [fetchall()]. *)
Definition select_clients_ordered : stmt (list Client.t) := λ d,
  (Ok (merge_sort name_le (clients d)), d).

(** *** GET /clients *)
Definition list_clients (fault : nat → bool)
  : database → result (list ClientOut.t) * database :=
  with_session (
    rows ← execute fault select_clients_ordered;
    mret ((λ r, {| ClientOut.id := Client.id r; ClientOut.name := Client.name r;
                   ClientOut.address := or_empty (Client.address r);
                   ClientOut.email := or_empty (Client.email r);
                   ClientOut.phone := or_empty (Client.phone r) |}) <$> rows)).

(** A row of [history]; [ts] is a point in time, counted in microseconds. *)
Module History.
Record t : Type := {
  id : Z;
  ts : Z;
  type : string;
  number : string;
  client : option string;
  total_ttc : option string;
  path : option string;
}.
End History.

Module HistoryIn.
Record t : Type := {
  type : string;
  number : string;
  client : option string;
  total_ttc : option string;
  path : option string;
}.
End HistoryIn.

Module HistoryOut.
Record t : Type := {
  id : Z;
  ts : Z;
  type : string;
  number : string;
  client : option string;
  total_ttc : option string;
  path : option string;
}.
End HistoryOut.

(** The [history] table with the serial behind [history.id].  No endpoint
    touches it together with another table, so its requests are written
    over this table alone, with the session spelled out: statements act on a
    pending copy that only [db.commit()] publishes, except for the serial,
    whose new value stays. *)
Record history_table : Type := {
  history : list History.t;
  history_id_seq : Z;
}.

(** [INSERT INTO history(ts,type,number,client,total_ttc,path) VALUES (...)
    RETURNING id, ts], then [fetchone()].  The id is drawn from the serial
    first; a row with that id makes the primary key reject the insert, the
    drawn id being lost. *)
Definition insert_history (ts : Z) (ty num cl ttc p : string)
  (h : history_table) : result (Z * Z) * history_table :=
  let i := history_id_seq h in
  if existsb (λ r, History.id r =? i) (history h)
  then (Raise IntegrityError, {| history := history h; history_id_seq := i + 1 |})
  else
    (Ok (i, ts),
     {| history :=
          history h ++
          [{| History.id := i; History.ts := ts; History.type := ty;
              History.number := num; History.client := Some cl;
              History.total_ttc := Some ttc; History.path := Some p |}];
        history_id_seq := i + 1 |}).

(** *** POST /history; [utcnow] is what [datetime.utcnow()] returns. *)
Definition add_history (fault : nat → bool) (utcnow : Z) (h : HistoryIn.t)
  (tbl : history_table) : result HistoryOut.t * history_table :=
  if fault 0%nat then (Raise OperationalError, tbl)
  else
    let '(r, pending) :=
      insert_history utcnow (HistoryIn.type h) (HistoryIn.number h)
        (or_empty (HistoryIn.client h)) (or_empty (HistoryIn.total_ttc h))
        (or_empty (HistoryIn.path h)) tbl in
    let rolled_back :=
      {| history := history tbl; history_id_seq := history_id_seq pending |} in
    match r with
    | Raise e => (Raise e, rolled_back)
    | Ok (r0, r1) =>
        if fault 1%nat then (Raise OperationalError, rolled_back)
        else
          (Ok {| HistoryOut.id := r0; HistoryOut.ts := r1;
                 HistoryOut.type := HistoryIn.type h;
                 HistoryOut.number := HistoryIn.number h;
                 HistoryOut.client := HistoryIn.client h;
                 HistoryOut.total_ttc := HistoryIn.total_ttc h;
                 HistoryOut.path := HistoryIn.path h |},
           pending)
    end.

(** [ORDER BY ts DESC]; rows with equal [ts] come in the order the store
    picks, here the order of the table. *)
Definition ts_ge (a b : History.t) : Prop := History.ts b ≤ History.ts a.

#[global] Instance ts_ge_dec : RelDecision ts_ge.
Proof. intros a b. unfold ts_ge. apply _. Defined.

(** The largest [bigint], the type of a [LIMIT]. *)
Definition INT8_MAX : Z := 9223372036854775807.

(** *** GET /history?limit=N.  A [LIMIT] that is no [bigint] is refused by
    the store with a [DataError]; a negative one is refused with an error
    this development does not name. *)
Definition list_history (fault : nat → bool) (limit : Z) (tbl : history_table)
  : result (list HistoryOut.t) * history_table :=
  if fault 0%nat then (Raise OperationalError, tbl)
  else if limit <? 0 then (Raise Unmodelled, tbl)
  else if INT8_MAX <? limit then (Raise DataError, tbl)
  else
    (Ok ((λ r, {| HistoryOut.id := History.id r; HistoryOut.ts := History.ts r;
                  HistoryOut.type := History.type r;
                  HistoryOut.number := History.number r;
                  HistoryOut.client := History.client r;
                  HistoryOut.total_ttc := History.total_ttc r;
                  HistoryOut.path := History.path r |})
           <$> take (Z.to_nat limit) (merge_sort ts_ge (history tbl))),
     tbl).

(** The default of the [limit] query parameter. *)
Definition default_limit : Z := 200.

(** ** More vocabulary *)

(** The pair [uq_clients_name_email] constrains; a NULL email constrains
    nothing. *)
Definition client_key (r : Client.t) : option (string * string) :=
  (λ e, (Client.name r, e)) <$> Client.email r.

Definition unique_clients (d : database) : Prop :=
  NoDup (omap client_key (clients d)) ∧ NoDup (Client.id <$> clients d).

(** The databases a client request can leave: the matched row updated, or
    the new row appended; and the test that makes the insert fail. *)
Definition updated_clients (c : ClientIn.t) (r0 : Client.t) (d : database)
  : database :=
  {| counters := counters d;
     clients :=
       set_address_phone (Client.id r0) (or_empty (ClientIn.address c))
         (or_empty (ClientIn.phone c)) <$> clients d;
     clients_id_seq := clients_id_seq d |}.

Definition new_client (c : ClientIn.t) (d : database) : Client.t :=
  {| Client.id := clients_id_seq d; Client.name := ClientIn.name c;
     Client.address := Some (or_empty (ClientIn.address c));
     Client.email := Some (or_empty (ClientIn.email c));
     Client.phone := Some (or_empty (ClientIn.phone c)) |}.

Definition inserted_client (c : ClientIn.t) (d : database) : database :=
  {| counters := counters d;
     clients := clients d ++ [new_client c d];
     clients_id_seq := clients_id_seq d + 1 |}.

(** The database a rejected insert leaves: the tables as they were, the
    drawn id gone. *)
Definition rejected_client (d : database) : database :=
  with_serial (clients_id_seq d + 1) d.

Definition insert_clashes (c : ClientIn.t) (d : database) : bool :=
  existsb (λ r, (Client.id r =? clients_id_seq d)
                || client_matches (ClientIn.name c)
                     (Some (or_empty (ClientIn.email c))) r) (clients d).

(** The entry the history listing shows for a stored row, and the row a
    body is stored as. *)
Definition history_out (r : History.t) : HistoryOut.t :=
  {| HistoryOut.id := History.id r; HistoryOut.ts := History.ts r;
     HistoryOut.type := History.type r; HistoryOut.number := History.number r;
     HistoryOut.client := History.client r;
     HistoryOut.total_ttc := History.total_ttc r;
     HistoryOut.path := History.path r |}.

Definition history_row (i ts : Z) (h : HistoryIn.t) : History.t :=
  {| History.id := i; History.ts := ts; History.type := HistoryIn.type h;
     History.number := HistoryIn.number h;
     History.client := Some (or_empty (HistoryIn.client h));
     History.total_ttc := Some (or_empty (HistoryIn.total_ttc h));
     History.path := Some (or_empty (HistoryIn.path h)) |}.

(** The values the integer columns of a counter can hold. *)
Definition storable (r : Counter.t) : Prop :=
  in_int4 (Counter.next r) = true ∧ in_int4 (Counter.padding r) = true.

(** The integer a decimal string denotes, leading zeros allowed. *)
Definition decimal_value (s : string) : option Z :=
  option_map Z.of_int (NilZero.int_of_string s).

Definition type_of_out (o : CounterOut.t) : string := CounterOut.type o.

Definition row_of_out (o : CounterOut.t) : Counter.t :=
  {| Counter.next := CounterOut.next o; Counter.prefix := CounterOut.prefix o;
     Counter.padding := CounterOut.padding o |}.

(** * Properties *)

(** ** Decimal rendering and the format spec *)

Section FormatSpec.

Lemma append_String (c : ascii) (s t : string) :
  String c s +:+ t = String c (s +:+ t).
Proof. reflexivity. Qed.

Lemma append_empty (t : string) : "" +:+ t = t.
Proof. reflexivity. Qed.

Lemma scan_digits_digit (c : ascii) (s : string) (acc : Z) (seen : bool) :
  is_digit c = true →
  scan_digits acc seen (String c s) = scan_digits (10 * acc + digit_val c) true s.
Proof. intros H. cbn [scan_digits]. by rewrite H. Qed.

Lemma scan_digits_stop (c : ascii) (s : string) (acc : Z) (seen : bool) :
  is_digit c = false →
  scan_digits acc seen (String c s) = (acc, seen, String c s).
Proof. intros H. cbn [scan_digits]. by rewrite H. Qed.

Ltac eval_digit :=
  match goal with
  | |- context [digit_val ?c] =>
      let v := eval vm_compute in (digit_val c) in
      change (digit_val c) with v
  end.

Lemma scan_digits_acc (d : Decimal.uint) (a : positive) :
  scan_digits (Z.pos a) true (NilEmpty.string_of_uint d +:+ "d")
  = (Z.pos (Pos.of_uint_acc d a), true, "d").
Proof.
  revert a. induction d; intros a; cbn [NilEmpty.string_of_uint];
    rewrite ?append_String, ?append_empty;
    try reflexivity;
    rewrite scan_digits_digit by reflexivity;
    cbn [Pos.of_uint_acc]; rewrite <- IHd; f_equal; eval_digit; lia.
Qed.

Lemma scan_digits_uint (d : Decimal.uint) :
  scan_digits 0 true (NilEmpty.string_of_uint d +:+ "d")
  = (Z.of_N (Pos.of_uint d), true, "d").
Proof.
  induction d; cbn [NilEmpty.string_of_uint];
    rewrite ?append_String, ?append_empty;
    try reflexivity;
    rewrite scan_digits_digit by reflexivity; eval_digit;
    cbn [Pos.of_uint]; try exact IHd;
    cbn [Z.mul Z.add Z.of_N]; apply scan_digits_acc.
Qed.

(** The width written by [str] is the width read back. *)
Lemma scan_digits_decimal (w : Z) :
  0 < w → scan_digits 0 false (decimal w +:+ "d") = (w, true, "d").
Proof.
  destruct w as [|p|p]; try lia. intros _.
  unfold decimal. cbn [Z.to_int NilZero.string_of_int].
  pose proof (DecimalPos.Unsigned.of_to p) as Hp.
  assert (Hnil : Pos.to_uint p ≠ Decimal.Nil).
  { intros E. rewrite E in Hp. discriminate. }
  assert (Hs : NilZero.string_of_uint (Pos.to_uint p)
               = NilEmpty.string_of_uint (Pos.to_uint p)).
  { by destruct (Pos.to_uint p). }
  rewrite Hs.
  transitivity (scan_digits 0 true
                  (NilEmpty.string_of_uint (Pos.to_uint p) +:+ "d")).
  - destruct (Pos.to_uint p); try done;
      cbn [NilEmpty.string_of_uint]; rewrite ?append_String, ?append_empty;
      by rewrite !scan_digits_digit by reflexivity.
  - rewrite scan_digits_uint, Hp. reflexivity.
Qed.

Lemma parse_format_spec_width (w : Z) :
  0 < w →
  parse_format_spec ("0" +:+ decimal w +:+ "d")
  = if PY_SSIZE_T_MAX <? w then Raise ValueError
    else Ok {| fs_zero := true; fs_width := Some w; fs_type := Some "d"%char |}.
Proof.
  intros Hw. unfold parse_format_spec, get_integer.
  rewrite append_String, append_empty. cbv beta iota.
  rewrite scan_digits_decimal by done. by destruct (PY_SSIZE_T_MAX <? w).
Qed.

(** A negative width starts with a minus sign, which is no digit: the width
    is absent and more than the type character is left over. *)
Lemma parse_format_spec_negative (w : Z) :
  w < 0 → parse_format_spec ("0" +:+ decimal w +:+ "d") = Raise ValueError.
Proof.
  destruct w as [|p|p]; try lia. intros _.
  unfold parse_format_spec, get_integer, decimal.
  cbn [Z.to_int NilZero.string_of_int].
  rewrite !append_String, append_empty. cbv beta iota.
  rewrite scan_digits_stop by reflexivity.
  change (PY_SSIZE_T_MAX <? 0) with false. cbv iota.
  by destruct (NilZero.string_of_uint (Pos.to_uint p)).
Qed.

End FormatSpec.

(** ** [formatted_number] *)

Lemma ssize_below_str_limit : PY_SSIZE_T_MAX < str_limit.
Proof. apply Z.ltb_lt. vm_compute. reflexivity. Qed.

Lemma in_int4_bounds (n : Z) :
  in_int4 n = true ↔ -2147483648 ≤ n ≤ 2147483647.
Proof. unfold in_int4. rewrite andb_true_iff, !Z.leb_le. done. Qed.

Lemma int4_below_ssize (n : Z) : in_int4 n = true → n ≤ PY_SSIZE_T_MAX.
Proof.
  intros H%in_int4_bounds.
  assert (2147483647 ≤ PY_SSIZE_T_MAX) by (apply Z.leb_le; reflexivity). lia.
Qed.

Lemma exceeds_false (n : Z) :
  exceeds_max_str_digits n = false ↔ Z.abs n < str_limit.
Proof. unfold exceeds_max_str_digits. apply Z.leb_gt. Qed.

Lemma int4_digits (n : Z) : in_int4 n = true → exceeds_max_str_digits n = false.
Proof.
  intros H. pose proof (int4_below_ssize n H) as Hn.
  apply in_int4_bounds in H. apply exceeds_false.
  pose proof ssize_below_str_limit.
  assert (2147483648 ≤ PY_SSIZE_T_MAX) by (apply Z.leb_le; reflexivity). lia.
Qed.

(** What the function computes, test by test. *)
Lemma formatted_number_eq (n : Z) (p : string) (w : Z) :
  formatted_number n p w
  = if negb (w =? 0) && (0 <=? n) then
      if exceeds_max_str_digits w || (w <? 0) || (PY_SSIZE_T_MAX <? w)
         || exceeds_max_str_digits n
      then Raise ValueError
      else Ok (p +:+ zero_pad n w)
    else if exceeds_max_str_digits n then Raise ValueError
         else Ok (p +:+ zero_pad n w).
Proof.
  unfold formatted_number, zero_pad, str.
  destruct (Z.eqb_spec w 0) as [->|Hw]; cbn [negb andb].
  { by destruct (exceeds_max_str_digits n). }
  destruct (Z.leb_spec 0 n) as [Hn|Hn]; cbn [negb andb].
  - destruct (exceeds_max_str_digits w); [done|]. cbn [orb].
    destruct (Z.ltb_spec w 0) as [Hneg|Hpos]; cbn [orb].
    + unfold format_int. by rewrite parse_format_spec_negative.
    + unfold format_int. rewrite parse_format_spec_width by lia.
      destruct (PY_SSIZE_T_MAX <? w); [done|]. cbn [orb fs_type fs_width fs_zero].
      rewrite Z.abs_eq by done. unfold str.
      destruct (exceeds_max_str_digits n); [done|].
      destruct (Z.ltb_spec n 0); [lia|]. destruct (Z.ltb_spec 0 w); [|lia].
      cbn [andb String.length Nat.add]. by rewrite append_empty.
  - rewrite andb_false_r. by destruct (exceeds_max_str_digits n).
Qed.

Lemma formatted_number_Ok_inv (n : Z) (p : string) (w : Z) (s : string) :
  formatted_number n p w = Ok s → s = p +:+ zero_pad n w.
Proof.
  rewrite formatted_number_eq.
  repeat (case_match; try done); congruence.
Qed.

Lemma formatted_number_raise (n : Z) (p : string) (w : Z) (e : exn) :
  formatted_number n p w = Raise e → e = ValueError.
Proof.
  rewrite formatted_number_eq.
  repeat (case_match; try done); congruence.
Qed.

Lemma formatted_number_negative_padding (n : Z) (p : string) (w : Z) :
  w < 0 → 0 ≤ n → formatted_number n p w = Raise ValueError.
Proof.
  intros Hw Hn. rewrite formatted_number_eq.
  destruct (Z.eqb_spec w 0); [lia|]. destruct (Z.leb_spec 0 n); [|lia].
  destruct (Z.ltb_spec w 0); [|lia]. cbn [negb andb].
  by rewrite orb_true_r.
Qed.

(** For values the columns can hold, formatting fails only on a negative
    padding with a non-negative number. *)
Lemma formatted_number_int4 (n : Z) (p : string) (w : Z) :
  in_int4 n = true → in_int4 w = true → (w < 0 → n < 0) →
  formatted_number n p w = Ok (p +:+ zero_pad n w).
Proof.
  intros Hn Hw Hpad. rewrite formatted_number_eq.
  rewrite (int4_digits n Hn), (int4_digits w Hw).
  pose proof (int4_below_ssize w Hw).
  destruct (Z.ltb_spec PY_SSIZE_T_MAX w); [lia|].
  destruct (Z.eqb_spec w 0); [done|]. destruct (Z.leb_spec 0 n); [|done].
  destruct (Z.ltb_spec w 0); [lia|]. done.
Qed.

(** ** [take_next_number] *)

#[local] Arguments formatted_number : simpl never.
#[local] Arguments in_int4 : simpl never.

Ltac unfold_tx :=
  unfold with_session, mbind, Tx_bind, mret, Tx_ret, execute, commit, rollback,
    lift, try_except; cbn.

(** Case on the next round trip: lost, or answered. *)
Ltac round_trip f k := destruct (f k) eqn:?; cbn; [left; by eauto|].

(** Whatever the fault plan, a request either raises and leaves the database
    as it was, or returns the formatted current number and stores the
    incremented row, which the column can hold. *)
Lemma take_next_number_cases (fault : nat → bool) (t : string) (d : database) :
  let r := current d t in
  let res := take_next_number fault {| doc_type := t |} d in
  (∃ e, res = (Raise e, d)) ∨
  (∃ s, formatted_number (Counter.next r) (Counter.prefix r) (Counter.padding r)
          = Ok s ∧
        in_int4 (Counter.next r + 1) = true ∧
        res = (Ok {| formatted := s |}, set_counters (insert t (bump r)) d)).
Proof.
  destruct d as [cs cl sq].
  unfold take_next_number, current. unfold_tx.
  round_trip fault 0%nat. round_trip fault 1%nat.
  destruct (cs !! t) as [[n p w]|] eqn:Hrow; cbn.
  - destruct (formatted_number n p w) as [s|e]; cbn; [|left; by eauto].
    round_trip fault 2%nat. unfold update_counter_next.
    destruct (in_int4 (n + 1)) eqn:Hfit; cbn; [|left; by eauto].
    round_trip fault 3%nat.
    right. exists s. split; [done|]. split; [done|].
    unfold set_counters, bump. cbn.
    by erewrite alter_alt_Some by exact Hrow.
  - round_trip fault 2%nat. unfold insert_counter.
    change (in_int4 1 && in_int4 0) with true. cbn. rewrite Hrow.
    change (formatted_number 1 "" 0) with (Ok (A:=string) "1"). cbn.
    round_trip fault 3%nat. unfold update_counter_next.
    change (in_int4 (1 + 1)) with true. cbn. round_trip fault 4%nat.
    right. exists "1". split; [done|]. split; [done|].
    unfold set_counters, bump. cbn. by rewrite alter_insert_eq.
Qed.

Lemma take_next_number_ok (fault : nat → bool) (t : string) (d d' : database)
    (out : TakeNextOut) :
  take_next_number fault {| doc_type := t |} d = (Ok out, d') →
  let r := current d t in
  formatted_number (Counter.next r) (Counter.prefix r) (Counter.padding r)
    = Ok (formatted out) ∧
  d' = set_counters (insert t (bump r)) d.
Proof.
  intros H.
  destruct (take_next_number_cases fault t d) as [[e He]|(s & Hs & _ & He)];
    cbv zeta in He; rewrite He in H; [done|].
  injection H as <- <-. by cbn.
Qed.

Lemma take_next_number_raise (fault : nat → bool) (t : string) (d d' : database)
    (e : exn) :
  take_next_number fault {| doc_type := t |} d = (Raise e, d') → d' = d.
Proof.
  intros H.
  destruct (take_next_number_cases fault t d) as [[e' He]|(s & Hs & _ & He)];
    cbv zeta in He; rewrite He in H; [|done].
  by injection H as _ <-.
Qed.

(** On a store that answers, the request is decided by the current row. *)
Lemma take_next_number_reliable (t : string) (d : database) :
  let r := current d t in
  take_next_number reliable {| doc_type := t |} d
  = match formatted_number (Counter.next r) (Counter.prefix r)
            (Counter.padding r) with
    | Ok s =>
        if in_int4 (Counter.next r + 1)
        then (Ok {| formatted := s |}, set_counters (insert t (bump r)) d)
        else (Raise DataError, d)
    | Raise e => (Raise e, d)
    end.
Proof.
  destruct d as [cs cl sq].
  unfold take_next_number, current. unfold_tx.
  destruct (cs !! t) as [[n p w]|] eqn:Hrow; cbn.
  - destruct (formatted_number n p w) as [s|e]; cbn; [|done].
    unfold update_counter_next.
    destruct (in_int4 (n + 1)); cbn; [|done].
    unfold set_counters, bump. cbn.
    by erewrite alter_alt_Some by exact Hrow.
  - unfold insert_counter.
    change (in_int4 1 && in_int4 0) with true. cbn. rewrite Hrow.
    change (formatted_number 1 "" 0) with (Ok (A:=string) "1"). cbn.
    unfold update_counter_next. change (in_int4 (1 + 1)) with true. cbn.
    unfold set_counters, bump. cbn. by rewrite alter_insert_eq.
Qed.

Lemma lookup_bumped (t : string) (r : Counter.t) (d : database) :
  counters (set_counters (insert t (bump r)) d) !! t = Some (bump r).
Proof. unfold set_counters. cbn. apply lookup_insert_eq. Qed.

(** ** [set_counter] and [list_counters] *)

Lemma set_counter_reliable (t : string) (c : CounterIn.t) (d : database) :
  set_counter reliable t c d
  = if in_int4 (CounterIn.next c) && in_int4 (CounterIn.padding c)
    then (Ok (out_of t c), set_counters (insert t (row_of c)) d)
    else (Raise DataError, d).
Proof.
  destruct d as [cs cl sq]. unfold set_counter. unfold_tx.
  unfold upsert_counter.
  by destruct (in_int4 (CounterIn.next c) && in_int4 (CounterIn.padding c)).
Qed.

Lemma set_counter_cases (fault : nat → bool) (t : string) (c : CounterIn.t)
    (d : database) :
  (∃ e, set_counter fault t c d = (Raise e, d) ∧
        (e = OperationalError ∨
         e = DataError ∧
         in_int4 (CounterIn.next c) && in_int4 (CounterIn.padding c) = false)) ∨
  (in_int4 (CounterIn.next c) && in_int4 (CounterIn.padding c) = true ∧
   set_counter fault t c d
   = (Ok (out_of t c), set_counters (insert t (row_of c)) d)).
Proof.
  destruct d as [cs cl sq]. unfold set_counter. unfold_tx.
  destruct (fault 0%nat); cbn; [left; eexists; by eauto|].
  unfold upsert_counter.
  destruct (in_int4 (CounterIn.next c) && in_int4 (CounterIn.padding c)) eqn:Hfit;
    cbn; [|left; eexists; by eauto].
  destruct (fault 1%nat); cbn; [left; eexists; by eauto|]. by right.
Qed.

Lemma list_counters_database (fault : nat → bool) (d : database) :
  (list_counters fault d).2 = d.
Proof.
  destruct d as [cs cl sq]. unfold list_counters. unfold_tx.
  by destruct (fault 0%nat).
Qed.
(** ** Strings and the connection string *)

Lemma prefix_split (p s : string) :
  String.prefix p s = true → s = p +:+ skip (String.length p) s.
Proof.
  revert s. induction p as [|c p IH]; intros [|c' s] H; try done.
  cbn in H. destruct (ascii_dec c c') as [->|]; [|done].
  rewrite append_String. cbn [String.length skip]. f_equal. by apply IH.
Qed.

Lemma replace1_prefix (old new s : string) :
  String.prefix old s = true →
  replace1 old new s = new +:+ skip (String.length old) s.
Proof. intros H. destruct s; cbn [replace1]; by rewrite H. Qed.

Lemma contains_app_r (sub a b : string) :
  contains sub b = true → contains sub (a +:+ b) = true.
Proof.
  intros H. induction a as [|c a IH]; [done|].
  rewrite append_String. cbn [contains]. rewrite IH. apply orb_true_r.
Qed.

(** The driver rewrite touches only the scheme, in which no text starting
    with ["ss"] begins. *)
Lemma with_driver_contains (sub s : string) :
  contains ("ss" +:+ sub) s = true →
  contains ("ss" +:+ sub) (with_driver s) = true.
Proof.
  intros H. unfold with_driver, startswith.
  destruct (String.prefix "postgresql://" s) eqn:Hp; [|done].
  apply contains_app_r. apply prefix_split in Hp. rewrite Hp in H.
  cbn [String.length] in H. revert H.
  generalize (skip 13 s). intros r.
  rewrite !append_String, !append_empty. cbn. by destruct r.
Qed.

Lemma with_driver_replace1 (s : string) :
  (if startswith s "postgresql://"
   then Ok (replace1 "postgresql://" "postgresql+psycopg://" s) else Ok s)
  = Ok (with_driver s).
Proof.
  unfold with_driver, startswith.
  destruct (String.prefix "postgresql://" s) eqn:Hp; [|done].
  by rewrite replace1_prefix.
Qed.

(** ** [upsert_client] with a string email

    A body that carries its email as a string updates the matching row in
    place. *)

Lemma find_fmap_stable {A} (P : A → bool) (f : A → A) (l : list A) :
  (∀ x, P (f x) = P x) → List.find P (f <$> l) = f <$> List.find P l.
Proof.
  intros Hf. induction l as [|x l IH]; [done|].
  cbn [fmap list_fmap List.find]. rewrite Hf. by destruct (P x).
Qed.

Lemma find_app_none {A} (P : A → bool) (l l' : list A) :
  List.find P l = None → List.find P (l ++ l') = List.find P l'.
Proof.
  induction l as [|x l IH]; [done|]. cbn [app List.find].
  by destruct (P x).
Qed.

Lemma existsb_orb_false {A} (P Q : A → bool) (l : list A) :
  existsb (λ x, P x || Q x) l = false → List.find P l = None.
Proof.
  induction l as [|x l IH]; [done|]. cbn [existsb List.find].
  intros H. apply orb_false_iff in H as [H1 H2].
  apply orb_false_iff in H1 as [-> _]. by apply IH.
Qed.

Lemma client_matches_refl (n e : string) (r : Client.t) :
  Client.name r = n → Client.email r = Some e →
  client_matches n (Some e) r = true.
Proof.
  intros Hn He. unfold client_matches. rewrite Hn, He.
  by rewrite !String.eqb_refl.
Qed.

Lemma set_address_phone_id (i : Z) (a ph : string) (r : Client.t) :
  Client.id (set_address_phone i a ph r) = Client.id r.
Proof. unfold set_address_phone. by destruct (Client.id r =? i). Qed.

Lemma set_address_phone_matches (i : Z) (a ph n : string) (e : option string)
    (r : Client.t) :
  client_matches n e (set_address_phone i a ph r) = client_matches n e r.
Proof. unfold set_address_phone. by destruct (Client.id r =? i). Qed.

Lemma set_address_phone_address (a ph : string) (r : Client.t) :
  Client.address (set_address_phone (Client.id r) a ph r) = Some a.
Proof. unfold set_address_phone. by rewrite Z.eqb_refl. Qed.

(** On a store that answers, the request is decided by the lookup. *)
Lemma upsert_client_reliable (c : ClientIn.t) (d : database) :
  upsert_client reliable c d
  = match List.find (client_matches (ClientIn.name c) (ClientIn.email c))
            (clients d) with
    | Some r0 =>
        match List.find (λ r, Client.id r =? Client.id r0)
                (clients (updated_clients c r0 d)) with
        | Some r => (Ok (client_out r), updated_clients c r0 d)
        | None => (Raise TypeError, updated_clients c r0 d)
        end
    | None =>
        if insert_clashes c d
        then (Raise (HTTPException 400 "Client unique constraint failed"),
              rejected_client d)
        else
          match List.find (λ r, Client.id r =? clients_id_seq d)
                  (clients (inserted_client c d)) with
          | Some r => (Ok (client_out r), inserted_client c d)
          | None => (Raise TypeError, inserted_client c d)
          end
    end.
Proof.
  destruct d as [cs cl sq].
  unfold upsert_client. unfold_tx. unfold select_client_id. cbn.
  destruct (List.find _ cl) as [r0|]; cbn.
  - unfold select_client_by_id. cbn.
    by destruct (List.find (λ r, Client.id r =? Client.id r0) _).
  - unfold insert_client, insert_clashes. cbn.
    destruct (existsb _ cl); cbn; [done|].
    unfold select_client_by_id. cbn.
    by destruct (List.find (λ r, Client.id r =? sq) _).
Qed.

Lemma find_same_id (r0 : Client.t) (l : list Client.t) (P : Client.t → bool) :
  List.find P l = Some r0 →
  ∃ r, List.find (λ r, Client.id r =? Client.id r0) l = Some r ∧
       Client.id r = Client.id r0.
Proof.
  intros H. apply List.find_some in H as [Hin _].
  destruct (List.find (λ r, Client.id r =? Client.id r0) l) as [r|] eqn:Hf.
  - exists r. split; [done|]. apply List.find_some in Hf as [_ Hf]. lia.
  - apply List.find_none with (x := r0) in Hf; [|done]. lia.
Qed.

(** A body whose (name, email) matches a row updates that row in place. *)
Lemma upsert_client_update (c : ClientIn.t) (d : database) (r0 : Client.t) :
  List.find (client_matches (ClientIn.name c) (ClientIn.email c)) (clients d)
  = Some r0 →
  ∃ out,
    upsert_client reliable c d
    = (Ok out,
       {| counters := counters d;
          clients :=
            set_address_phone (Client.id r0) (or_empty (ClientIn.address c))
              (or_empty (ClientIn.phone c)) <$> clients d;
          clients_id_seq := clients_id_seq d |}) ∧
    ClientOut.id out = Client.id r0 ∧
    ClientOut.address out = or_empty (ClientIn.address c).
Proof.
  intros Hfind. rewrite upsert_client_reliable, Hfind.
  unfold updated_clients. cbn [clients].
  rewrite find_fmap_stable
    by (intros x; by rewrite set_address_phone_id).
  destruct (find_same_id _ _ _ Hfind) as (r & -> & Hid). cbn [fmap option_fmap option_map].
  eexists. split; [reflexivity|]. unfold client_out. cbn.
  rewrite set_address_phone_id. split; [done|].
  rewrite <- Hid. by rewrite set_address_phone_address.
Qed.

(** X14: Two requests with the same name and the same string email: the second
    returns the id of the first with its own address, and adds no row. *)
Lemma upsert_client_twice (c1 c2 : ClientIn.t) (d d1 : database) (e : string)
    (out1 : ClientOut.t) :
  ClientIn.name c2 = ClientIn.name c1 →
  ClientIn.email c1 = Some e → ClientIn.email c2 = Some e →
  upsert_client reliable c1 d = (Ok out1, d1) →
  ∃ out2 d2,
    upsert_client reliable c2 d1 = (Ok out2, d2) ∧
    ClientOut.id out2 = ClientOut.id out1 ∧
    ClientOut.address out2 = or_empty (ClientIn.address c2) ∧
    length (clients d2) = length (clients d1).
Proof.
  intros Hname He1 He2 Hfirst.
  assert (∃ r1, List.find (client_matches (ClientIn.name c2) (ClientIn.email c2))
                  (clients d1) = Some r1 ∧
                Client.id r1 = ClientOut.id out1) as (r1 & Hr1 & Hid).
  { rewrite Hname, He2, <- He1.
    destruct (List.find (client_matches (ClientIn.name c1) (ClientIn.email c1))
                (clients d)) as [r0|] eqn:Hfind.
    - destruct (upsert_client_update c1 d r0 Hfind) as (out & Hup & Hout & _).
      rewrite Hup in Hfirst. injection Hfirst as <- <-. cbn [clients].
      exists (set_address_phone (Client.id r0) (or_empty (ClientIn.address c1))
                (or_empty (ClientIn.phone c1)) r0).
      rewrite find_fmap_stable
        by (intros x; apply set_address_phone_matches).
      rewrite Hfind. split; [done|]. by rewrite set_address_phone_id.
    - rewrite upsert_client_reliable, Hfind in Hfirst.
      destruct (insert_clashes c1 d) eqn:Hclash; [done|].
      unfold inserted_client, new_client in Hfirst. cbn [clients] in Hfirst.
      unfold insert_clashes in Hclash.
      rewrite find_app_none in Hfirst by (by eapply existsb_orb_false).
      cbn [List.find Client.id] in Hfirst. rewrite Z.eqb_refl in Hfirst.
      injection Hfirst as <- <-. cbn [clients].
      rewrite find_app_none by done. eexists. split.
      + cbn [List.find]. rewrite He1.
        rewrite client_matches_refl; [reflexivity|done|done].
      + reflexivity. }
  destruct (upsert_client_update c2 d1 r1 Hr1) as (out2 & Hup & Hout & Haddr).
  exists out2. eexists. split; [exact Hup|]. split; [congruence|].
  split; [done|]. cbn [clients]. by rewrite length_fmap.
Qed.

(** ** Allocations one after the other

    Requests served in sequence hand out consecutive numbers, as long as the
    column can hold the next one; requests that overlap in time are outside
    this model. *)

Lemma current_Some (d : database) (t : string) (r : Counter.t) :
  counters d !! t = Some r → current d t = r.
Proof. intros H. unfold current. by rewrite H. Qed.

Lemma current_None (d : database) (t : string) :
  counters d !! t = None →
  current d t
  = {| Counter.next := 1; Counter.prefix := ""; Counter.padding := 0 |}.
Proof. intros H. unfold current. by rewrite H. Qed.

Lemma allocate_seq_existing (k : nat) (t : string) (d : database) (n : Z)
    (p : string) (w : Z) :
  counters d !! t
  = Some {| Counter.next := n; Counter.prefix := p; Counter.padding := w |} →
  0 ≤ w ≤ 2147483647 →
  -2147483648 ≤ n → n + Z.of_nat k ≤ 2147483647 →
  (allocate_seq k t d).1
  = (λ i : nat, Ok {| formatted := p +:+ zero_pad (n + Z.of_nat i) w |})
      <$> seq 0 k ∧
  next_of (allocate_seq k t d).2 t = Some (n + Z.of_nat k).
Proof.
  revert d n. induction k as [|k IH]; intros d n Hrow Hw Hlo Hhi.
  - cbn. unfold next_of. rewrite Hrow. cbn. split; [done|]. f_equal. lia.
  - cbn [allocate_seq]. rewrite take_next_number_reliable. cbv zeta.
    rewrite (current_Some _ _ _ Hrow).
    cbn [Counter.next Counter.prefix Counter.padding].
    rewrite formatted_number_int4
      by (rewrite ?in_int4_bounds; lia).
    assert (in_int4 (n + 1) = true) as -> by (apply in_int4_bounds; lia).
    specialize (IH (set_counters
                      (insert t (bump {| Counter.next := n; Counter.prefix := p;
                                         Counter.padding := w |})) d)
                   (n + 1) (lookup_bumped _ _ _) Hw ltac:(lia) ltac:(lia)).
    destruct (allocate_seq k t _) as [rs d2]. cbn [fst snd] in IH |- *.
    destruct IH as [-> ->]. split.
    + cbn [seq fmap list_fmap]. f_equal; [by rewrite Z.add_0_r|].
      rewrite <- fmap_S_seq, <- list_fmap_compose.
      apply list_fmap_ext. intros _ i _. cbn [compose].
      replace (n + 1 + Z.of_nat i) with (n + Z.of_nat (S i)) by lia. done.
    + f_equal. lia.
Qed.

(** X5: [k] allocations in a row on a type without a counter row return
    "1", "2", ..., "k" in that order and leave the counter at [k + 1], as
    long as [k + 1] fits the 32-bit column. *)
Lemma allocate_seq_fresh (k : nat) (t : string) (d : database) :
  counters d !! t = None →
  Z.of_nat k ≤ 2147483646 →
  (allocate_seq k t d).1
  = (λ i : nat, Ok {| formatted := decimal (Z.of_nat i) |}) <$> seq 1 k ∧
  ((0 < k)%nat → next_of (allocate_seq k t d).2 t = Some (Z.of_nat k + 1)).
Proof.
  intros Hnone Hk. destruct k as [|k]; [split; [done|lia]|].
  cbn [allocate_seq]. rewrite take_next_number_reliable. cbv zeta.
  rewrite (current_None _ _ Hnone).
  change (formatted_number _ _ _) with (Ok (A:=string) "1").
  change (in_int4 _) with true. cbv iota beta.
  pose proof (allocate_seq_existing k t
                (set_counters
                   (insert t (bump {| Counter.next := 1; Counter.prefix := "";
                                      Counter.padding := 0 |})) d)
                2 "" 0 (lookup_bumped _ _ _) ltac:(lia) ltac:(lia) ltac:(lia))
    as [IH1 IH2].
  destruct (allocate_seq k t _) as [rs d2]. cbn [fst snd] in IH1, IH2 |- *.
  split.
  - rewrite IH1. cbn [seq fmap list_fmap]. f_equal.
    rewrite <- (fmap_S_seq 1), <- fmap_S_seq, <- !list_fmap_compose.
    apply list_fmap_ext. intros _ i _. cbn [compose].
    unfold zero_pad. cbn [Z.ltb Z.compare andb].
    replace (2 + Z.of_nat i) with (Z.of_nat (S (S i))) by lia. done.
  - intros _. rewrite IH2. f_equal. lia.
Qed.

(** * The specification, claim by claim *)

(** C3 (formatted_number, the spec's zero_pad): the padding is applied when
    the width is positive and the number non-negative, and the three worked
    examples hold; but for a negative width and a non-negative number, where
    the specification promises the unpadded rendering ["7"], the code raises
    [ValueError]: the guard tests that [padding] is non-zero, not that it is
    positive, and the format spec ["0-4d"] it then builds is invalid. *)
Theorem formatted_number_raises_on_negative_padding :
  formatted_number 7 "" (-4) = Raise ValueError ∧
  zero_pad 7 (-4) = "7" ∧
  formatted_number 7 "" 4 = Ok "0007" ∧
  formatted_number 7 "" 0 = Ok "7" ∧
  formatted_number (-1) "" 4 = Ok "-1".
Proof. repeat split; reflexivity. Qed.

(** C1 (take_next_number on an existing counter): if the stored row for
    [t] is (next=n, prefix=p, padding=w) and the request returns, the result
    is [p + zero_pad(n, w)] computed from that row, and the row afterwards is
    (n+1, p, w), nothing else in the database having changed; in particular,
    after configuring "invoice" with (100, "INV-", 5) the next allocation
    returns "INV-00100" and leaves the counter at 101. *)
Theorem take_next_number_existing (fault : nat → bool) (t : string)
    (d d' : database) (n : Z) (p : string) (w : Z) (out : TakeNextOut)
    (Hrow : counters d !! t
            = Some {| Counter.next := n; Counter.prefix := p;
                      Counter.padding := w |})
    (Hok : take_next_number fault {| doc_type := t |} d = (Ok out, d')) :
  (formatted out = p +:+ zero_pad n w ∧
   counters d' !! t
   = Some {| Counter.next := n + 1; Counter.prefix := p; Counter.padding := w |} ∧
   (∀ t', t' ≠ t → counters d' !! t' = counters d !! t') ∧
   clients d' = clients d) ∧
  (∀ d0 : database,
     let d1 := (set_counter reliable "invoice"
                  {| CounterIn.next := 100; CounterIn.prefix := "INV-";
                     CounterIn.padding := 5 |} d0).2 in
     let res := take_next_number reliable {| doc_type := "invoice" |} d1 in
     res.1 = Ok {| formatted := "INV-00100" |} ∧
     counters res.2 !! "invoice"
     = Some {| Counter.next := 101; Counter.prefix := "INV-";
               Counter.padding := 5 |}).
Proof.
  split.
  - apply take_next_number_ok in Hok. cbv zeta in Hok.
    unfold current in Hok. rewrite Hrow in Hok. cbn in Hok.
    destruct Hok as [Hfmt ->].
    repeat split.
    + by apply formatted_number_Ok_inv in Hfmt.
    + unfold set_counters. cbn. apply lookup_insert_eq.
    + intros t' Hne. unfold set_counters. cbn. by apply lookup_insert_ne.
  - intros d0 d1 res. subst res d1.
    rewrite set_counter_reliable.
    change (in_int4 _ && in_int4 _) with true. cbn [snd].
    rewrite take_next_number_reliable. cbv zeta.
    unfold current, set_counters. cbn [counters].
    rewrite lookup_insert_eq. cbn.
    change (formatted_number 100 "INV-" 5) with (Ok (A:=string) "INV-00100").
    change (in_int4 (100 + 1)) with true. cbn.
    split; [reflexivity|]. apply lookup_insert_eq.
Qed.

Lemma take_next_number_existing_witness :
  let d := (set_counter reliable "invoice"
              {| CounterIn.next := 100; CounterIn.prefix := "INV-";
                 CounterIn.padding := 5 |} empty_db).2 in
  let d' := (take_next_number reliable {| doc_type := "invoice" |} d).2 in
  counters d !! "invoice"
  = Some {| Counter.next := 100; Counter.prefix := "INV-"; Counter.padding := 5 |} ∧
  take_next_number reliable {| doc_type := "invoice" |} d
  = (Ok {| formatted := "INV-00100" |}, d') ∧
  "INV-00100" = "INV-" +:+ zero_pad 100 5 ∧
  counters d' !! "invoice"
  = Some {| Counter.next := 101; Counter.prefix := "INV-"; Counter.padding := 5 |}.
Proof.
  intros d d'.
  assert (H1 : counters d !! "invoice"
               = Some {| Counter.next := 100; Counter.prefix := "INV-";
                         Counter.padding := 5 |}) by reflexivity.
  assert (H2 : take_next_number reliable {| doc_type := "invoice" |} d
               = (Ok {| formatted := "INV-00100" |}, d')) by reflexivity.
  split; [exact H1|]. split; [exact H2|].
  destruct (take_next_number_existing reliable "invoice" d d' 100 "INV-" 5
              {| formatted := "INV-00100" |} H1 H2) as [(Ha & Hb & _) _].
  split; [exact Ha | exact Hb].
Defined.

(** C2 (take_next_number on an unseen type): when no row exists for [t], the
    request creates the row (1, "", 0) and increments it in one transaction:
    on a store that answers it returns "1" and leaves the row (2, "", 0);
    under any fault plan a request that returns has done exactly that, and one
    that raises leaves the type without a row (no created-but-unincremented
    row is ever committed). *)
Theorem take_next_number_fresh (t : string) (d : database)
    (Hnone : counters d !! t = None) :
  take_next_number reliable {| doc_type := t |} d
  = (Ok {| formatted := "1" |},
     set_counters
       (insert t {| Counter.next := 2; Counter.prefix := "";
                    Counter.padding := 0 |}) d) ∧
  (∀ fault out d',
     take_next_number fault {| doc_type := t |} d = (Ok out, d') →
     formatted out = "1" ∧
     counters d' !! t
     = Some {| Counter.next := 2; Counter.prefix := ""; Counter.padding := 0 |}) ∧
  (∀ fault e d',
     take_next_number fault {| doc_type := t |} d = (Raise e, d') →
     counters d' !! t = None).
Proof.
  repeat split.
  - rewrite take_next_number_reliable. cbv zeta.
    by rewrite (current_None _ _ Hnone).
  - apply take_next_number_ok in H. cbv zeta in H. unfold current in H.
    rewrite Hnone in H. cbn in H. destruct H as [H _].
    change (formatted_number 1 "" 0) with (Ok (A:=string) "1") in H.
    congruence.
  - apply take_next_number_ok in H. cbv zeta in H. unfold current in H.
    rewrite Hnone in H. destruct H as [_ ->]. apply lookup_bumped.
  - intros fault e d' H. apply take_next_number_raise in H. by subst.
Qed.

Lemma take_next_number_fresh_witness :
  counters empty_db !! "invoice" = None ∧
  take_next_number reliable {| doc_type := "invoice" |} empty_db
  = (Ok {| formatted := "1" |},
     set_counters
       (insert "invoice" {| Counter.next := 2; Counter.prefix := "";
                            Counter.padding := 0 |}) empty_db).
Proof.
  assert (H : counters empty_db !! "invoice" = None) by reflexivity.
  split; [exact H|].
  exact (proj1 (take_next_number_fresh "invoice" empty_db H)).
Defined.

(** C5 (a failed allocation): if a request raises, at whichever round trip
    between the read and the commit or in the formatting, the database is the
    one before the request, so the counter's [next] is unchanged; and a later
    request that returns yields the number formatted from that same row,
    which is what the failed request would have returned, and stores its
    increment. *)
Theorem take_next_number_failure (fault : nat → bool) (t : string)
    (d d' : database) (e : exn)
    (Hfail : take_next_number fault {| doc_type := t |} d = (Raise e, d')) :
  d' = d ∧
  next_of d' t = next_of d t ∧
  (∀ fault' out d'',
     take_next_number fault' {| doc_type := t |} d' = (Ok out, d'') →
     let r := current d t in
     formatted_number (Counter.next r) (Counter.prefix r) (Counter.padding r)
       = Ok (formatted out) ∧
     next_of d'' t = Some (Counter.next r + 1)).
Proof.
  apply take_next_number_raise in Hfail. subst d'.
  repeat split.
  - by apply take_next_number_ok in H as [H _].
  - apply take_next_number_ok in H as [_ ->].
    unfold next_of. by rewrite lookup_bumped.
Qed.

Lemma take_next_number_failure_witness :
  let d := (set_counter reliable "invoice"
              {| CounterIn.next := 100; CounterIn.prefix := "INV-";
                 CounterIn.padding := 5 |} empty_db).2 in
  let d'' := (take_next_number reliable {| doc_type := "invoice" |} d).2 in
  take_next_number (lost 2) {| doc_type := "invoice" |} d
  = (Raise OperationalError, d) ∧
  take_next_number reliable {| doc_type := "invoice" |} d
  = (Ok {| formatted := "INV-00100" |}, d'') ∧
  next_of d'' "invoice" = Some (Counter.next (current d "invoice") + 1).
Proof.
  intros d d''.
  assert (H : take_next_number (lost 2) {| doc_type := "invoice" |} d
              = (Raise OperationalError, d)) by reflexivity.
  assert (H2 : take_next_number reliable {| doc_type := "invoice" |} d
               = (Ok {| formatted := "INV-00100" |}, d'')) by reflexivity.
  split; [exact H|]. split; [exact H2|].
  destruct (take_next_number_failure (lost 2) "invoice" d d OperationalError H)
    as (_ & _ & Hnext).
  exact (proj2 (Hnext reliable _ _ H2)).
Defined.

(** C6, as stated, fails: [next] and [padding] are 32-bit integer columns
    while the request body takes any integer, so a configuration with
    [next = 2147483648] is refused by the store and no row is written. *)
Lemma set_counter_refuses_out_of_range :
  ¬ (∀ (t : string) (c : CounterIn.t) (d : database),
       counters (set_counter reliable t c d).2 !! t = Some (row_of c)).
Proof.
  intros H.
  specialize (H "invoice"
                {| CounterIn.next := 2147483648; CounterIn.prefix := "";
                   CounterIn.padding := 0 |} empty_db).
  discriminate H.
Qed.

(** C6, amended (set_counter): on a store that answers, configuring [t] with
    fields whose [next] and [padding] fit the 32-bit integer columns returns
    the given fields and leaves the row for [t] holding exactly them, whether
    or not a row was there, every other row being untouched; doing it twice
    with the same body gives the same response and database as once; of two
    such configurations of the same type the second alone determines the
    row; and a body whose [next] or [padding] does not fit is refused with a
    [DataError], nothing being stored. *)
Theorem set_counter_upsert (t : string) (c c1 c2 : CounterIn.t) (d : database)
    (Hfit : in_int4 (CounterIn.next c) && in_int4 (CounterIn.padding c) = true)
    (Hfit1 : in_int4 (CounterIn.next c1) && in_int4 (CounterIn.padding c1) = true)
    (Hfit2 : in_int4 (CounterIn.next c2) && in_int4 (CounterIn.padding c2) = true) :
  (set_counter reliable t c d).1
  = Ok {| CounterOut.type := t; CounterOut.next := CounterIn.next c;
          CounterOut.prefix := CounterIn.prefix c;
          CounterOut.padding := CounterIn.padding c |} ∧
  counters (set_counter reliable t c d).2 !! t
  = Some {| Counter.next := CounterIn.next c;
            Counter.prefix := CounterIn.prefix c;
            Counter.padding := CounterIn.padding c |} ∧
  (∀ t', t' ≠ t →
     counters (set_counter reliable t c d).2 !! t' = counters d !! t') ∧
  clients (set_counter reliable t c d).2 = clients d ∧
  set_counter reliable t c (set_counter reliable t c d).2
  = set_counter reliable t c d ∧
  set_counter reliable t c2 (set_counter reliable t c1 d).2
  = set_counter reliable t c2 d ∧
  (∀ c' : CounterIn.t,
     in_int4 (CounterIn.next c') && in_int4 (CounterIn.padding c') = false →
     set_counter reliable t c' d = (Raise DataError, d)).
Proof.
  rewrite !set_counter_reliable, Hfit, Hfit1, Hfit2. cbn [fst snd].
  unfold set_counters. cbn.
  repeat split.
  - apply lookup_insert_eq.
  - intros t' Hne. by apply lookup_insert_ne.
  - by rewrite insert_insert_eq.
  - by rewrite insert_insert_eq.
  - intros c' Hc'. by rewrite set_counter_reliable, Hc'.
Qed.

Lemma set_counter_upsert_witness :
  let c1 := {| CounterIn.next := 100; CounterIn.prefix := "INV-";
               CounterIn.padding := 5 |} in
  let c2 := {| CounterIn.next := 7; CounterIn.prefix := "Q";
               CounterIn.padding := 0 |} in
  let d := (set_counter reliable "quote" c1 empty_db).2 in
  in_int4 (CounterIn.next c1) && in_int4 (CounterIn.padding c1) = true ∧
  in_int4 (CounterIn.next c2) && in_int4 (CounterIn.padding c2) = true ∧
  counters (set_counter reliable "invoice" c2 (set_counter reliable "invoice" c1 d).2).2
    !! "invoice"
  = Some {| Counter.next := 7; Counter.prefix := "Q"; Counter.padding := 0 |} ∧
  counters (set_counter reliable "invoice" c2 d).2 !! "quote"
  = Some {| Counter.next := 100; Counter.prefix := "INV-"; Counter.padding := 5 |}.
Proof.
  intros c1 c2 d.
  assert (H1 : in_int4 (CounterIn.next c1) && in_int4 (CounterIn.padding c1) = true)
    by reflexivity.
  assert (H2 : in_int4 (CounterIn.next c2) && in_int4 (CounterIn.padding c2) = true)
    by reflexivity.
  split; [exact H1|]. split; [exact H2|].
  destruct (set_counter_upsert "invoice" c2 c1 c2 d H2 H1 H2)
    as (_ & Hrow & Hother & _ & _ & Htwice & _).
  split.
  - rewrite Htwice. exact Hrow.
  - rewrite (Hother "quote") by discriminate. reflexivity.
Defined.

(** C7, as stated, fails: [set_counter] stores whatever [next] it is given,
    so a configuration can lower a counter (here from 100 to 1). *)
Lemma next_decreases_under_configure :
  ¬ (∀ (ops : list op) (d : database) (t : string) (n n' : Z),
       next_of d t = Some n → next_of (run ops d) t = Some n' → n ≤ n').
Proof.
  intros H.
  specialize (H [Configure reliable "invoice"
                   {| CounterIn.next := 1; CounterIn.prefix := "";
                      CounterIn.padding := 0 |}]
                (set_counter reliable "invoice"
                   {| CounterIn.next := 100; CounterIn.prefix := "INV-";
                      CounterIn.padding := 5 |} empty_db).2
                "invoice" 100 1 eq_refl eq_refl).
  lia.
Qed.

Lemma step_nondecreasing (o : op) (d : database) (t : string) (n : Z) :
  is_configure o = false → next_of d t = Some n →
  ∃ n', next_of (step d o) t = Some n' ∧ n ≤ n'.
Proof.
  intros Ho Hn. destruct o as [fault t'|?|fault]; [|done|]; cbn [step].
  - destruct (take_next_number_cases fault t' d) as [[e He]|(s & _ & _ & He)];
      cbv zeta in He; rewrite He; cbn [snd].
    + exists n. split; [done|lia].
    + unfold next_of in *. unfold set_counters. cbn [counters].
      destruct (decide (t' = t)) as [->|Hne].
      * rewrite lookup_insert_eq. unfold current.
        destruct (counters d !! t) as [r|]; [|done].
        cbn in Hn |- *. injection Hn as <-. eexists. split; [done|lia].
      * rewrite lookup_insert_ne by done. exists n. split; [done|lia].
  - rewrite list_counters_database. exists n. split; [done|lia].
Qed.

(** C7, amended: under every sequence of allocations and listings, whatever
    their fault plans, a counter's [next] never decreases; and an allocation
    that returns increments it by exactly 1 (leaving 2 when it created the
    row). *)
Theorem next_nondecreasing_without_configure (ops : list op) (d : database)
    (t : string) (n : Z)
    (Hops : forallb (λ o, negb (is_configure o)) ops = true)
    (Hn : next_of d t = Some n) :
  (∃ n', next_of (run ops d) t = Some n' ∧ n ≤ n') ∧
  (∀ fault d0 out d1,
     take_next_number fault {| doc_type := t |} d0 = (Ok out, d1) →
     (∀ m, next_of d0 t = Some m → next_of d1 t = Some (m + 1)) ∧
     (next_of d0 t = None → next_of d1 t = Some 2)).
Proof.
  split.
  - revert d n Hn. unfold run.
    induction ops as [|o ops IH]; intros d n Hn; cbn [foldl].
    + exists n. split; [done|lia].
    + cbn [forallb] in Hops. apply andb_true_iff in Hops as [Ho Hops].
      apply negb_true_iff in Ho.
      destruct (step_nondecreasing o d t n Ho Hn) as (n1 & Hn1 & Hle).
      destruct (IH Hops (step d o) n1 Hn1) as (n2 & Hn2 & Hle2).
      exists n2. split; [done|lia].
  - intros fault d0 out d1 H. apply take_next_number_ok in H as [_ ->].
    unfold next_of, current. rewrite lookup_bumped.
    split.
    + intros m Hm. destruct (counters d0 !! t) as [r|]; [|done].
      cbn in Hm |- *. by injection Hm as <-.
    + intros Hm. by destruct (counters d0 !! t).
Qed.

Lemma next_nondecreasing_without_configure_witness :
  let d := (set_counter reliable "invoice"
              {| CounterIn.next := 100; CounterIn.prefix := "INV-";
                 CounterIn.padding := 5 |} empty_db).2 in
  let ops := [Allocate reliable "invoice"; ListAll reliable;
              Allocate (lost 2) "invoice"; Allocate reliable "quote";
              Allocate reliable "invoice"] in
  forallb (λ o, negb (is_configure o)) ops = true ∧
  next_of d "invoice" = Some 100 ∧
  ∃ n', next_of (run ops d) "invoice" = Some n' ∧ 100 ≤ n'.
Proof.
  intros d ops.
  assert (H1 : forallb (λ o, negb (is_configure o)) ops = true) by reflexivity.
  assert (H2 : next_of d "invoice" = Some 100) by reflexivity.
  split; [exact H1|]. split; [exact H2|].
  exact (proj1 (next_nondecreasing_without_configure ops d "invoice" 100 H1 H2)).
Defined.

(** C10 (no check on [doc_type]): [take_next_number] treats every key alike,
    the empty string included.  On a store that answers, a key without a row
    gets the row (1, "", 0) created, "1" returned and the row left at
    (2, "", 0); a key with a row the columns can hold gets that row's number
    formatted and the row incremented; in both cases no other row and no
    other table changes; the response depends only on the row, not on the
    key; and a request is refused only because of the stored row, never
    because of the key: either the formatting raises [ValueError] (negative
    padding with a non-negative [next]) or the increment does not fit the
    column ([next] is 2147483647, a [DataError]), and then nothing changes. *)
Theorem take_next_number_any_doc_type (t : string) (d : database) :
  let res := take_next_number reliable {| doc_type := t |} d in
  (counters d !! t = None →
   res.1 = Ok {| formatted := "1" |} ∧
   counters res.2 !! t
   = Some {| Counter.next := 2; Counter.prefix := ""; Counter.padding := 0 |}) ∧
  (∀ n p w,
     counters d !! t
     = Some {| Counter.next := n; Counter.prefix := p; Counter.padding := w |} →
     in_int4 n = true → in_int4 w = true →
     (w < 0 → n < 0) → n < 2147483647 →
     res.1 = Ok {| formatted := p +:+ zero_pad n w |} ∧
     counters res.2 !! t
     = Some {| Counter.next := n + 1; Counter.prefix := p;
               Counter.padding := w |}) ∧
  ((∀ t', t' ≠ t → counters res.2 !! t' = counters d !! t') ∧
   clients res.2 = clients d ∧ clients_id_seq res.2 = clients_id_seq d) ∧
  (∀ t' d',
     current d' t' = current d t →
     (take_next_number reliable {| doc_type := t' |} d').1 = res.1) ∧
  (∀ e,
     res.1 = Raise e →
     res.2 = d ∧
     ∃ n p w,
       counters d !! t
       = Some {| Counter.next := n; Counter.prefix := p; Counter.padding := w |} ∧
       (e = ValueError ∨ e = DataError) ∧
       (in_int4 n = true → in_int4 w = true →
        e = ValueError ∧ w < 0 ∧ 0 ≤ n ∨
        e = DataError ∧ 0 ≤ w ∧ n = 2147483647)).
Proof.
  cbv zeta. rewrite take_next_number_reliable. cbv zeta.
  split; [|split; [|split; [|split]]].
  - intros Hnone. rewrite (current_None _ _ Hnone).
    change (formatted_number _ _ _) with (Ok (A := string) "1").
    change (in_int4 _) with true. cbn [fst snd Counter.next].
    split; [done|]. by rewrite lookup_bumped.
  - intros n p w Hrow Hn Hw Hpad Hmax. rewrite (current_Some _ _ _ Hrow).
    cbn [Counter.next Counter.prefix Counter.padding].
    rewrite (formatted_number_int4 _ _ _ Hn Hw Hpad).
    apply in_int4_bounds in Hn.
    assert (Hn1 : in_int4 (n + 1) = true) by (apply in_int4_bounds; lia).
    rewrite Hn1. cbn [fst snd]. split; [done|]. by rewrite lookup_bumped.
  - destruct (formatted_number _ _ _); [|done].
    destruct (in_int4 _); [|done]. cbn [snd].
    unfold set_counters. cbn. split; [|done].
    intros t' Hne. by apply lookup_insert_ne.
  - intros t' d' Hcur. rewrite take_next_number_reliable. cbv zeta.
    rewrite Hcur. destruct (formatted_number _ _ _); [|done].
    by destruct (in_int4 _).
  - intros e He.
    destruct (counters d !! t) as [[n p w]|] eqn:Hrow.
    + rewrite (current_Some _ _ _ Hrow) in He |- *.
      cbn [Counter.next Counter.prefix Counter.padding] in He |- *.
      destruct (formatted_number n p w) eqn:Hf.
      * destruct (in_int4 (n + 1)) eqn:Hn1; [done|].
        cbn in He. injection He as <-. split; [done|].
        exists n, p, w. split; [done|]. split; [by right|].
        intros Hn Hw. right. split; [done|].
        apply in_int4_bounds in Hn.
        assert (n = 2147483647).
        { destruct (decide (n = 2147483647)) as [|Hne]; [done|].
          assert (in_int4 (n + 1) = true) by (apply in_int4_bounds; lia).
          congruence. }
        split; [|done].
        destruct (decide (0 ≤ w)) as [|Hneg]; [done|].
        rewrite formatted_number_negative_padding in Hf by lia. done.
      * cbn in He. injection He as <-.
        pose proof (formatted_number_raise _ _ _ _ Hf) as ->.
        split; [done|]. exists n, p, w. split; [done|]. split; [by left|].
        intros Hn Hw. left. split; [done|].
        destruct (decide (w < 0)) as [Hneg|Hpos].
        -- split; [done|]. destruct (decide (0 ≤ n)) as [|Hnn]; [done|].
           rewrite formatted_number_int4 in Hf by (done || lia). done.
        -- rewrite formatted_number_int4 in Hf by (done || lia). done.
    + rewrite (current_None _ _ Hrow) in He.
      change (formatted_number _ _ _) with (Ok (A := string) "1") in He.
      change (in_int4 _) with true in He. done.
Qed.

Lemma take_next_number_any_doc_type_witness :
  let d := (set_counter reliable ""
              {| CounterIn.next := 100; CounterIn.prefix := "INV-";
                 CounterIn.padding := 5 |} empty_db).2 in
  (counters empty_db !! "" = None ∧
   (take_next_number reliable {| doc_type := "" |} empty_db).1
   = Ok {| formatted := "1" |} ∧
   counters (take_next_number reliable {| doc_type := "" |} empty_db).2 !! ""
   = Some {| Counter.next := 2; Counter.prefix := ""; Counter.padding := 0 |}) ∧
  (counters d !! ""
   = Some {| Counter.next := 100; Counter.prefix := "INV-"; Counter.padding := 5 |} ∧
   (take_next_number reliable {| doc_type := "" |} d).1
   = Ok {| formatted := "INV-" +:+ zero_pad 100 5 |} ∧
   counters (take_next_number reliable {| doc_type := "" |} d).2 !! ""
   = Some {| Counter.next := 100 + 1; Counter.prefix := "INV-";
             Counter.padding := 5 |}).
Proof.
  intros d.
  assert (H : counters empty_db !! "" = None) by reflexivity.
  assert (Hd : counters d !! ""
               = Some {| Counter.next := 100; Counter.prefix := "INV-";
                         Counter.padding := 5 |}) by reflexivity.
  split.
  - split; [exact H|].
    exact (proj1 (take_next_number_any_doc_type "" empty_db) H).
  - split; [exact Hd|].
    refine (proj1 (proj2 (take_next_number_any_doc_type "" d))
              100 "INV-" 5 Hd _ _ _ _); (reflexivity || lia).
Defined.

(** C9 (DATABASE_URL): the normalization, marked [# Force SSL] in the source,
    tests whether the text [sslmode=] occurs anywhere in the connection
    string, not whether the URL carries an [sslmode] parameter that requires
    encryption.  A string that asks for [sslmode=disable] is used with that
    mode; a string whose password contains the text gets no parameter at
    all; a string with a ['?'] in its password gets the parameter appended
    after ['&'] to the database name, where it is no parameter.  In each case
    the specification promises a URL that requires encryption.  In general
    every non-empty string that contains the text is passed on with nothing
    but the scheme rewritten. *)
Theorem DATABASE_URL_does_not_force_ssl :
  DATABASE_URL {[ "DATABASE_URL" := "postgresql://u@h/db?sslmode=disable" ]}
  = Ok "postgresql+psycopg://u@h/db?sslmode=disable" ∧
  DATABASE_URL {[ "DATABASE_URL" := "postgresql://u:sslmode=@h/db" ]}
  = Ok "postgresql+psycopg://u:sslmode=@h/db" ∧
  DATABASE_URL {[ "DATABASE_URL" := "postgresql://u:p?w@h/db" ]}
  = Ok "postgresql+psycopg://u:p?w@h/db&sslmode=require" ∧
  (∀ (environ : gmap string string) (raw : string),
     environ !! "DATABASE_URL" = Some raw → raw ≠ "" →
     contains "sslmode=" raw = true →
     DATABASE_URL environ
     = Ok (if startswith raw "postgresql://"
           then replace1 "postgresql://" "postgresql+psycopg://" raw
           else raw)).
Proof.
  split; [reflexivity|]. split; [reflexivity|]. split; [reflexivity|].
  intros environ raw Henv Hraw Hssl.
  unfold DATABASE_URL, getenv. rewrite Henv.
  change (default "" (Some raw)) with raw.
  destruct (String.eqb_spec raw "") as [|_]; [done|].
  rewrite Hssl. cbn [negb]. by destruct (startswith raw "postgresql://").
Qed.

(** C8 (upsert_client): a body whose [email] is null is never matched by the
    lookup (it compares [email] with NULL) although the insert stores it as
    [""]: the second of two calls with the same name and a null email, where
    the specification promises an update in place, is rejected with status 400,
    the stored address stays the first one, and the id the rejected insert
    drew is lost.  The rejection itself is surfaced as specified: one
    [HTTPException], no retry. *)
Theorem upsert_client_null_email_rejected :
  let c1 := {| ClientIn.name := "Bob"; ClientIn.address := Some "1 Main St";
               ClientIn.email := None; ClientIn.phone := None |} in
  let c2 := {| ClientIn.name := "Bob"; ClientIn.address := Some "2 Side St";
               ClientIn.email := None; ClientIn.phone := None |} in
  let d1 := (upsert_client reliable c1 empty_db).2 in
  (upsert_client reliable c1 empty_db).1
  = Ok {| ClientOut.id := 1; ClientOut.name := "Bob";
          ClientOut.address := "1 Main St"; ClientOut.email := "";
          ClientOut.phone := "" |} ∧
  upsert_client reliable c2 d1
  = (Raise (HTTPException 400 "Client unique constraint failed"),
     with_serial 3 d1) ∧
  clients d1
  = [{| Client.id := 1; Client.name := "Bob";
        Client.address := Some "1 Main St"; Client.email := Some "";
        Client.phone := Some "" |}] ∧
  clients (with_serial 3 d1) = clients d1 ∧
  counters (with_serial 3 d1) = counters d1 ∧
  clients_id_seq d1 = 2.
Proof. repeat split; reflexivity. Qed.

(** * Further properties of the code *)

(** ** Formatting *)

(** X1: On the values the integer columns can hold, which are the only ones
    the function is called with, [formatted_number] raises exactly when the
    padding is negative and the number is not, and then it is a
    [ValueError]; for every other such input it returns a string. *)
Theorem formatted_number_raises_iff (n : Z) (p : string) (w : Z)
    (Hn : in_int4 n = true) (Hw : in_int4 w = true) :
  (formatted_number n p w = Raise ValueError ↔ w < 0 ∧ 0 ≤ n) ∧
  (∀ e, formatted_number n p w = Raise e → e = ValueError ∧ w < 0 ∧ 0 ≤ n) ∧
  (¬ (w < 0 ∧ 0 ≤ n) → ∃ s, formatted_number n p w = Ok s).
Proof.
  assert (Hok : ¬ (w < 0 ∧ 0 ≤ n) →
                formatted_number n p w = Ok (p +:+ zero_pad n w)).
  { intros Hno. apply formatted_number_int4; [done..|lia]. }
  assert (Hraise : ∀ e, formatted_number n p w = Raise e →
                        e = ValueError ∧ w < 0 ∧ 0 ≤ n).
  { intros e He. split; [by eapply formatted_number_raise|].
    destruct (decide (w < 0 ∧ 0 ≤ n)) as [|Hno]; [done|].
    rewrite (Hok Hno) in He. done. }
  split; [split|split].
  - intros He. by destruct (Hraise _ He) as [_ ?].
  - intros [? ?]. by apply formatted_number_negative_padding.
  - exact Hraise.
  - intros Hno. eexists. by apply Hok.
Qed.

Lemma formatted_number_raises_iff_witness :
  in_int4 7 = true ∧ in_int4 (-4) = true ∧
  formatted_number 7 "Q" (-4) = Raise ValueError ∧
  ∃ s, formatted_number (-7) "Q" (-4) = Ok s.
Proof.
  assert (H1 : in_int4 7 = true) by reflexivity.
  assert (H2 : in_int4 (-4) = true) by reflexivity.
  assert (H3 : in_int4 (-7) = true) by reflexivity.
  split; [exact H1|]. split; [exact H2|]. split.
  - apply (proj1 (formatted_number_raises_iff 7 "Q" (-4) H1 H2)). lia.
  - apply (proj2 (proj2 (formatted_number_raises_iff (-7) "Q" (-4) H3 H2))). lia.
Defined.

Lemma length_app (a b : string) :
  String.length (a +:+ b) = (String.length a + String.length b)%nat.
Proof.
  induction a as [|c a IH]; [by rewrite append_empty|].
  rewrite append_String. cbn [String.length]. by rewrite IH.
Qed.

Lemma length_zeros (k : nat) : String.length (zeros k) = k.
Proof. induction k as [|k IH]; [done|]. cbn. by rewrite IH. Qed.

Lemma get_zeros (k i : nat) (s : string) :
  (i < k)%nat → String.get i (zeros k +:+ s) = Some "0"%char.
Proof.
  revert i. induction k as [|k IH]; intros i Hi; [lia|].
  cbn [zeros]. rewrite append_String. destruct i as [|i]; [done|].
  cbn [String.get]. apply IH. lia.
Qed.

Lemma substring_all (s : string) : substring 0 (String.length s) s = s.
Proof. induction s as [|c s IH]; [done|]. cbn. by rewrite IH. Qed.

Lemma substring_zeros (k : nat) (s : string) :
  substring k (String.length s) (zeros k +:+ s) = s.
Proof.
  induction k as [|k IH]; cbn [zeros].
  - rewrite append_empty. apply substring_all.
  - rewrite append_String. exact IH.
Qed.

(** X2: With a positive padding and a non-negative number, both within the
    integer columns, the numeric part of the result is as long as the larger
    of the padding and the number of digits, it ends with the decimal
    rendering of the number (which is never cut), and every character before
    that is a zero. *)
Theorem formatted_number_width (n : Z) (p : string) (w : Z)
    (Hw : 0 < w) (Hn : 0 ≤ n)
    (Hn4 : in_int4 n = true) (Hw4 : in_int4 w = true) :
  ∃ num : string,
    formatted_number n p w = Ok (p +:+ num) ∧
    String.length num
    = Nat.max (Z.to_nat w) (String.length (decimal n)) ∧
    substring (String.length num - String.length (decimal n))
      (String.length (decimal n)) num
    = decimal n ∧
    (∀ i : nat,
       (i < String.length num - String.length (decimal n))%nat →
       String.get i num = Some "0"%char).
Proof.
  exists (zeros (Z.to_nat w - String.length (decimal n)) +:+ decimal n).
  rewrite length_app, length_zeros.
  replace (Z.to_nat w - String.length (decimal n) + String.length (decimal n)
           - String.length (decimal n))%nat
    with (Z.to_nat w - String.length (decimal n))%nat by lia.
  split; [|split; [lia|split]].
  - rewrite formatted_number_int4 by (done || lia). unfold zero_pad.
    destruct (Z.ltb_spec 0 w); [|lia]. by destruct (Z.leb_spec 0 n); [|lia].
  - apply substring_zeros.
  - intros i Hi. by apply get_zeros.
Qed.

Lemma formatted_number_width_witness :
  0 < 5 ∧ 0 ≤ 100 ∧ in_int4 100 = true ∧ in_int4 5 = true ∧
  formatted_number 100 "INV-" 5 = Ok "INV-00100" ∧
  ∃ num : string,
    "INV-00100" = "INV-" +:+ num ∧
    String.length num = Nat.max (Z.to_nat 5) (String.length (decimal 100)) ∧
    String.get 1 num = Some "0"%char.
Proof.
  assert (H1 : 0 < 5) by lia. assert (H2 : 0 ≤ 100) by lia.
  assert (H3 : in_int4 100 = true) by reflexivity.
  assert (H4 : in_int4 5 = true) by reflexivity.
  assert (H5 : formatted_number 100 "INV-" 5 = Ok "INV-00100") by reflexivity.
  split; [exact H1|]. split; [exact H2|]. split; [exact H3|].
  split; [exact H4|]. split; [exact H5|].
  destruct (formatted_number_width 100 "INV-" 5 H1 H2 H3 H4)
    as (num & Hf & Hlen & _ & Hzero).
  exists num. split.
  - rewrite H5 in Hf. injection Hf as Hnum.
    rewrite append_empty in Hnum. by rewrite <- Hnum.
  - split; [exact Hlen|]. apply Hzero. rewrite Hlen. vm_compute. lia.
Defined.

Lemma uint_of_string_zeros (k : nat) (s : string) :
  NilEmpty.uint_of_string (zeros k +:+ s)
  = Nat.iter k Decimal.D0 <$> NilEmpty.uint_of_string s.
Proof.
  induction k as [|k IH]; cbn [zeros Nat.iter].
  - rewrite append_empty. by destruct (NilEmpty.uint_of_string s).
  - rewrite append_String. cbn [NilEmpty.uint_of_string]. rewrite IH.
    by destruct (NilEmpty.uint_of_string s).
Qed.

Lemma of_uint_zeros (k : nat) (d : Decimal.uint) :
  Z.of_uint (Nat.iter k Decimal.D0 d) = Z.of_uint d.
Proof. induction k as [|k IH]; [done|]. exact IH. Qed.

Lemma decimal_value_decimal (n : Z) : decimal_value (decimal n) = Some n.
Proof.
  unfold decimal_value, decimal. rewrite NilZero.isi.
  - cbn. by rewrite DecimalZ.of_to.
  - destruct n as [|q|q]; cbn; try done.
    intros [= E]. pose proof (DecimalPos.Unsigned.of_to q) as Hq.
    by rewrite E in Hq.
  - destruct n as [|q|q]; cbn; try done.
    intros [= E]. pose proof (DecimalPos.Unsigned.of_to q) as Hq.
    by rewrite E in Hq.
Qed.

Lemma decimal_nonneg_digits (n : Z) :
  0 ≤ n →
  ∃ d, NilEmpty.uint_of_string (decimal n) = Some d ∧ Z.of_uint d = n.
Proof.
  intros Hn. pose proof (decimal_value_decimal n) as Hv.
  unfold decimal_value, decimal in *.
  destruct n as [|q|q]; [by exists (Decimal.D0 Decimal.Nil)| |lia].
  cbn [Z.to_int NilZero.string_of_int] in *.
  exists (Pos.to_uint q). split.
  - pose proof (DecimalPos.Unsigned.of_to q) as Hq.
    destruct (Pos.to_uint q); [done|exact (NilEmpty.usu _)..].
  - unfold Z.of_uint. by rewrite DecimalPos.Unsigned.of_to.
Qed.

(** The number can be read back from its padded rendering. *)
Lemma decimal_value_zero_pad (n w : Z) : decimal_value (zero_pad n w) = Some n.
Proof.
  unfold zero_pad. destruct ((0 <? w) && (0 <=? n)) eqn:Hc;
    [|apply decimal_value_decimal].
  apply andb_true_iff in Hc as [_ Hn]. apply Z.leb_le in Hn.
  destruct (Z.to_nat w - String.length (decimal n))%nat as [|k] eqn:Hk.
  - rewrite append_empty. apply decimal_value_decimal.
  - destruct (decimal_nonneg_digits n Hn) as (d & Hd & Hval).
    unfold decimal_value. cbn [zeros]. rewrite append_String.
    unfold NilZero.int_of_string. cbn [Ascii.eqb Bool.eqb].
    unfold NilZero.uint_of_string.
    rewrite <- append_String. change (String "0" (zeros k)) with (zeros (S k)).
    rewrite uint_of_string_zeros, Hd. cbn.
    f_equal. exact (eq_trans (of_uint_zeros (S k) d) Hval).
Qed.

(** X3: Under one prefix and one padding, different numbers never format to the
    same string. *)
Theorem formatted_number_inj (n1 n2 : Z) (p : string) (w : Z) (s : string)
    (H1 : formatted_number n1 p w = Ok s)
    (H2 : formatted_number n2 p w = Ok s) :
  n1 = n2.
Proof.
  pose proof (formatted_number_Ok_inv _ _ _ _ H1) as E1.
  pose proof (formatted_number_Ok_inv _ _ _ _ H2) as E2.
  rewrite E1 in E2. apply String.app_inj in E2.
  pose proof (decimal_value_zero_pad n1 w) as V1.
  rewrite E2, decimal_value_zero_pad in V1. congruence.
Qed.

Lemma formatted_number_inj_witness :
  formatted_number 7 "Q" 4 = Ok "Q0007" ∧ 7 = 7.
Proof.
  assert (H : formatted_number 7 "Q" 4 = Ok "Q0007") by reflexivity.
  split; [exact H|]. exact (formatted_number_inj 7 7 "Q" 4 "Q0007" H H).
Defined.

(** ** Counters *)

(** X4: [k] allocations in a row on a counter (n, p, w) with non-negative
    padding, as long as the column can hold the numbers up to n+k, all
    return, hand out the numbers n, n+1, ..., n+k-1 in that order, never the
    same string twice, and leave the counter at n+k. *)
Theorem allocate_seq_consecutive (k : nat) (t : string) (d : database) (n : Z)
    (p : string) (w : Z)
    (Hrow : counters d !! t
            = Some {| Counter.next := n; Counter.prefix := p;
                      Counter.padding := w |})
    (Hw : 0 ≤ w ≤ 2147483647)
    (Hn : -2147483648 ≤ n) (Hk : n + Z.of_nat k ≤ 2147483647) :
  (allocate_seq k t d).1
  = (λ i : nat, Ok {| formatted := p +:+ zero_pad (n + Z.of_nat i) w |})
      <$> seq 0 k ∧
  NoDup (allocate_seq k t d).1 ∧
  next_of (allocate_seq k t d).2 t = Some (n + Z.of_nat k).
Proof.
  destruct (allocate_seq_existing k t d n p w Hrow Hw Hn Hk) as [Hres Hnext].
  split; [done|]. split; [|done]. rewrite Hres.
  apply NoDup_fmap_2_strong; [|apply NoDup_seq].
  intros i j _ _ [= E]. apply String.app_inj in E.
  pose proof (decimal_value_zero_pad (n + Z.of_nat i) w) as V.
  rewrite E, decimal_value_zero_pad in V. injection V as V. lia.
Qed.

Lemma allocate_seq_consecutive_witness :
  let d := (set_counter reliable "invoice"
              {| CounterIn.next := 9; CounterIn.prefix := "F";
                 CounterIn.padding := 2 |} empty_db).2 in
  counters d !! "invoice"
  = Some {| Counter.next := 9; Counter.prefix := "F"; Counter.padding := 2 |} ∧
  0 ≤ 2 ≤ 2147483647 ∧ -2147483648 ≤ 9 ∧ 9 + Z.of_nat 3 ≤ 2147483647 ∧
  (allocate_seq 3 "invoice" d).1
  = [Ok {| formatted := "F09" |}; Ok {| formatted := "F10" |};
     Ok {| formatted := "F11" |}] ∧
  next_of (allocate_seq 3 "invoice" d).2 "invoice" = Some 12.
Proof.
  intros d.
  assert (H1 : counters d !! "invoice"
               = Some {| Counter.next := 9; Counter.prefix := "F";
                         Counter.padding := 2 |}) by reflexivity.
  assert (H2 : 0 ≤ 2 ≤ 2147483647) by lia.
  assert (H3 : -2147483648 ≤ 9) by lia.
  assert (H4 : 9 + Z.of_nat 3 ≤ 2147483647) by (cbn; lia).
  split; [exact H1|]. split; [exact H2|]. split; [exact H3|].
  split; [exact H4|].
  destruct (allocate_seq_consecutive 3 "invoice" d 9 "F" 2 H1 H2 H3 H4)
    as (Hres & _ & Hnext).
  split; [exact Hres | exact Hnext].
Defined.

Lemma allocate_seq_fresh_witness :
  counters empty_db !! "quote" = None ∧
  Z.of_nat 3 ≤ 2147483646 ∧
  (allocate_seq 3 "quote" empty_db).1
  = [Ok {| formatted := "1" |}; Ok {| formatted := "2" |};
     Ok {| formatted := "3" |}] ∧
  next_of (allocate_seq 3 "quote" empty_db).2 "quote" = Some 4.
Proof.
  assert (H : counters empty_db !! "quote" = None) by reflexivity.
  assert (Hk : Z.of_nat 3 ≤ 2147483646) by (cbn; lia).
  split; [exact H|]. split; [exact Hk|].
  destruct (allocate_seq_fresh 3 "quote" empty_db H Hk) as [Hres Hnext].
  split; [exact Hres|]. apply Hnext. lia.
Defined.

(** X6: A configuration that raises has changed nothing, and it raises either
    because a round trip was lost ([OperationalError]) or because [next] or
    [padding] does not fit its 32-bit column ([DataError]); one that
    returns has stored the row, whose fields fit. *)
Theorem set_counter_all_or_nothing (fault : nat → bool) (t : string)
    (c : CounterIn.t) (d d' : database) (r : result CounterOut.t)
    (Hrun : set_counter fault t c d = (r, d')) :
  (∀ e, r = Raise e →
        d' = d ∧
        (e = OperationalError ∨
         e = DataError ∧
         in_int4 (CounterIn.next c) && in_int4 (CounterIn.padding c) = false)) ∧
  (∀ out, r = Ok out →
          out = out_of t c ∧ counters d' !! t = Some (row_of c) ∧
          in_int4 (CounterIn.next c) && in_int4 (CounterIn.padding c) = true).
Proof.
  destruct (set_counter_cases fault t c d) as [(e & He & Hwhy)|(Hfit & Hok)].
  - rewrite He in Hrun. injection Hrun as <- <-.
    split; [by intros e' [= <-]|by intros out [=]].
  - rewrite Hok in Hrun. injection Hrun as <- <-.
    split; [by intros e' [=]|]. intros out [= <-].
    split; [done|]. split; [apply lookup_insert_eq|done].
Qed.

Lemma set_counter_all_or_nothing_witness :
  set_counter (lost 1) "invoice"
    {| CounterIn.next := 5; CounterIn.prefix := ""; CounterIn.padding := 0 |}
    empty_db
  = (Raise OperationalError, empty_db) ∧
  set_counter reliable "invoice"
    {| CounterIn.next := 2147483648; CounterIn.prefix := "";
       CounterIn.padding := 0 |} empty_db
  = (Raise DataError, empty_db) ∧
  (DataError = OperationalError ∨
   DataError = DataError ∧ in_int4 2147483648 && in_int4 0 = false).
Proof.
  assert (H : set_counter (lost 1) "invoice"
                {| CounterIn.next := 5; CounterIn.prefix := "";
                   CounterIn.padding := 0 |} empty_db
              = (Raise OperationalError, empty_db)) by reflexivity.
  assert (H' : set_counter reliable "invoice"
                 {| CounterIn.next := 2147483648; CounterIn.prefix := "";
                    CounterIn.padding := 0 |} empty_db
               = (Raise DataError, empty_db)) by reflexivity.
  split; [exact H|]. split; [exact H'|].
  exact (proj2 (proj1 (set_counter_all_or_nothing _ _ _ _ _ _ H') _ eq_refl)).
Defined.

#[global] Instance type_le_total : Total type_le.
Proof. intros a b. apply String.leb_total. Qed.

Lemma list_counters_rows (d : database) :
  ∃ rows,
    list_counters reliable d = (Ok rows, d) ∧
    Sorted (λ a b, String.leb (type_of_out a) (type_of_out b) = true) rows ∧
    (∀ o, o ∈ rows ↔ counters d !! type_of_out o = Some (row_of_out o)) ∧
    NoDup (type_of_out <$> rows) ∧
    length rows = size (counters d).
Proof.
  destruct d as [cs cl sq].
  unfold list_counters. unfold_tx. unfold select_counters_ordered. cbn.
  eexists. split; [reflexivity|].
  rewrite <- list_fmap_compose.
  set (h := (λ r : string * Z * string * Z, _) ∘ _).
  assert (Hh : ∀ kr, type_of_out (h kr) = kr.1) by done.
  pose proof (merge_sort_Permutation type_le (map_to_list cs)) as HP.
  repeat split.
  - eapply Sorted_fmap; [|apply (Sorted_merge_sort type_le)]. done.
  - intros Ho. apply list_elem_of_fmap in Ho as ([k r] & -> & Hin).
    rewrite HP in Hin. apply elem_of_map_to_list in Hin. cbn.
    rewrite Hin. by destruct r.
  - intros Ho. apply list_elem_of_fmap.
    exists (type_of_out o, row_of_out o). split; [by destruct o|].
    rewrite HP. by apply elem_of_map_to_list.
  - rewrite <- list_fmap_compose.
    assert (E : ∀ l : list (string * Counter.t), (type_of_out ∘ h) <$> l = l.*1)
      by (intros l; apply list_fmap_ext; intros ? kr ?; apply Hh).
    rewrite E, HP. apply NoDup_fst_map_to_list.
  - rewrite length_fmap, HP. apply length_map_to_list.
Qed.

(** X7: The listing is read-only under every fault plan; on a store that answers
    it returns every stored counter exactly once, with the stored fields, in
    ascending order of the type. *)
Theorem list_counters_sorted_complete (d : database) :
  (∀ fault, (list_counters fault d).2 = d) ∧
  ∃ rows,
    list_counters reliable d = (Ok rows, d) ∧
    Sorted (λ a b, String.leb (type_of_out a) (type_of_out b) = true) rows ∧
    (∀ o, o ∈ rows ↔ counters d !! type_of_out o = Some (row_of_out o)) ∧
    NoDup (type_of_out <$> rows) ∧
    length rows = size (counters d).
Proof.
  split; [intros fault; apply list_counters_database|].
  apply list_counters_rows.
Qed.

(** X8: What a configuration that fits the 32-bit columns has stored is what
    the listing shows for that type: the listing holds the configured fields,
    and no other entry for the type. *)
Theorem list_counters_after_set_counter (t : string) (c : CounterIn.t)
    (d : database)
    (Hfit : in_int4 (CounterIn.next c) && in_int4 (CounterIn.padding c) = true) :
  ∃ rows,
    (list_counters reliable (set_counter reliable t c d).2).1 = Ok rows ∧
    {| CounterOut.type := t; CounterOut.next := CounterIn.next c;
       CounterOut.prefix := CounterIn.prefix c;
       CounterOut.padding := CounterIn.padding c |} ∈ rows ∧
    (∀ o, o ∈ rows → CounterOut.type o = t →
          o = {| CounterOut.type := t; CounterOut.next := CounterIn.next c;
                 CounterOut.prefix := CounterIn.prefix c;
                 CounterOut.padding := CounterIn.padding c |}).
Proof.
  destruct (list_counters_rows (set_counter reliable t c d).2)
    as (rows & Hrun & _ & Hin & _).
  exists rows. rewrite Hrun. split; [done|].
  rewrite set_counter_reliable, Hfit in Hin. cbn [snd] in Hin.
  unfold set_counters in Hin. cbn [counters] in Hin. split.
  - apply Hin. cbn. by rewrite lookup_insert_eq.
  - intros o Ho Ht. apply Hin in Ho.
    unfold type_of_out in Ho. rewrite Ht, lookup_insert_eq in Ho.
    destruct o, c. unfold row_of, row_of_out in *.
    cbn in *. congruence.
Qed.

Lemma list_counters_after_set_counter_witness :
  let c := {| CounterIn.next := 100; CounterIn.prefix := "INV-";
              CounterIn.padding := 5 |} in
  in_int4 (CounterIn.next c) && in_int4 (CounterIn.padding c) = true ∧
  ∃ rows,
    (list_counters reliable (set_counter reliable "invoice" c empty_db).2).1
    = Ok rows ∧
    {| CounterOut.type := "invoice"; CounterOut.next := 100;
       CounterOut.prefix := "INV-"; CounterOut.padding := 5 |} ∈ rows.
Proof.
  intros c.
  assert (H : in_int4 (CounterIn.next c) && in_int4 (CounterIn.padding c) = true)
    by reflexivity.
  split; [exact H|].
  destruct (list_counters_after_set_counter "invoice" c empty_db H)
    as (rows & Hrows & Hin & _).
  exists rows. split; [exact Hrows | exact Hin].
Defined.

(** ** Clients *)

(** Whatever the fault plan, the database after a request is the one before
    it, or the one with the matched row updated, or the one with the new row
    appended, or the one before it with the drawn id gone. *)
Lemma upsert_client_outcomes (fault : nat → bool) (c : ClientIn.t)
    (d : database) :
  let d' := (upsert_client fault c d).2 in
  d' = d ∨
  (∃ r0, List.find (client_matches (ClientIn.name c) (ClientIn.email c))
           (clients d) = Some r0 ∧ d' = updated_clients c r0 d) ∨
  (List.find (client_matches (ClientIn.name c) (ClientIn.email c)) (clients d)
   = None ∧ insert_clashes c d = false ∧ d' = inserted_client c d) ∨
  (List.find (client_matches (ClientIn.name c) (ClientIn.email c)) (clients d)
   = None ∧ d' = rejected_client d).
Proof.
  destruct d as [cs cl sq].
  unfold upsert_client. unfold_tx.
  destruct (fault 0%nat); cbn; [by left|].
  unfold select_client_id. cbn.
  destruct (List.find _ cl) as [r0|] eqn:Hfind; cbn.
  - destruct (fault 1%nat); cbn; [by left|].
    destruct (fault 2%nat); cbn; [by left|].
    right. left. exists r0. split; [done|].
    destruct (fault 3%nat); cbn; [done|].
    unfold select_client_by_id. cbn.
    destruct (find (λ r, Client.id r =? Client.id r0) _); reflexivity.
  - destruct (fault 1%nat); cbn; [by left|].
    unfold insert_client, insert_clashes. cbn.
    destruct (existsb _ cl) eqn:Hclash; cbn; [by right; right; right|].
    destruct (fault 2%nat); cbn; [by right; right; right|].
    right. right. left. split; [done|]. split; [done|].
    destruct (fault 3%nat); cbn; [done|].
    unfold select_client_by_id. cbn.
    destruct (find (λ r, Client.id r =? sq) _); reflexivity.
Qed.

(** X9: No counter request touches the clients table, and no client request the
    counters, whatever the fault plans. *)
Theorem tables_are_independent (fault : nat → bool) (d : database) :
  (∀ t, clients (take_next_number fault {| doc_type := t |} d).2 = clients d) ∧
  (∀ t c, clients (set_counter fault t c d).2 = clients d) ∧
  (∀ c, counters (upsert_client fault c d).2 = counters d) ∧
  (∀ c, clients_id_seq d ≤ clients_id_seq (upsert_client fault c d).2).
Proof.
  repeat split.
  - intros t.
    destruct (take_next_number_cases fault t d) as [[e He]|(s & _ & _ & He)];
      cbv zeta in He; by rewrite He.
  - intros t c.
    destruct (set_counter_cases fault t c d) as [(e & He & _)|[_ He]];
      by rewrite He.
  - intros c.
    destruct (upsert_client_outcomes fault c d)
      as [->|[(r0 & _ & ->)|[(_ & _ & ->)|(_ & ->)]]]; done.
  - intros c.
    destruct (upsert_client_outcomes fault c d)
      as [->|[(r0 & _ & ->)|[(_ & _ & ->)|(_ & ->)]]]; cbn; lia.
Qed.

Lemma client_key_set_address_phone (i : Z) (a ph : string) (r : Client.t) :
  client_key (set_address_phone i a ph r) = client_key r.
Proof. unfold set_address_phone. by destruct (Client.id r =? i). Qed.

Lemma omap_fmap_stable {A B} (f : A → option B) (g : A → A) (l : list A) :
  (∀ x, f (g x) = f x) → omap f (g <$> l) = omap f l.
Proof.
  intros H. induction l as [|x l IH]; [done|].
  cbn [fmap list_fmap omap list_omap]. by rewrite H, IH.
Qed.

Lemma insert_clashes_fresh (c : ClientIn.t) (d : database) :
  insert_clashes c d = false →
  ((ClientIn.name c, or_empty (ClientIn.email c))
     ∉ omap client_key (clients d)) ∧
  (clients_id_seq d ∉ Client.id <$> clients d).
Proof.
  unfold insert_clashes. induction (clients d) as [|r l IH]; cbn [existsb].
  - intros _. split; apply not_elem_of_nil.
  - intros H. apply orb_false_iff in H as [H Hl].
    apply orb_false_iff in H as [Hid Hkey].
    destruct (IH Hl) as [IH1 IH2]. split.
    + cbn [omap list_omap].
      destruct (client_key r) as [k|] eqn:Ek; [|done].
      apply not_elem_of_cons. split; [|done]. intros <-.
      unfold client_key in Ek. unfold client_matches in Hkey.
      destruct (Client.email r) as [e|]; [|done].
      injection Ek as Hn He. by rewrite Hn, He, !String.eqb_refl in Hkey.
    + cbn [fmap list_fmap]. apply not_elem_of_cons. split; [|done].
      apply Z.eqb_neq in Hid. congruence.
Qed.

(** X10: A clients table in which no two rows share a (name, email) pair or an id
    stays so under every request, whatever its body and fault plan. *)
Theorem upsert_client_keeps_unique (fault : nat → bool) (c : ClientIn.t)
    (d : database) (Huniq : unique_clients d) :
  unique_clients (upsert_client fault c d).2.
Proof.
  destruct Huniq as [Hkeys Hids].
  destruct (upsert_client_outcomes fault c d)
    as [->|[(r0 & _ & ->)|[(_ & Hclash & ->)|(_ & ->)]]]; [done| | |done].
  - unfold unique_clients, updated_clients. cbn [clients]. split.
    + rewrite omap_fmap_stable; [done|].
      intros r. apply client_key_set_address_phone.
    + rewrite <- list_fmap_compose.
      erewrite list_fmap_ext; [exact Hids|].
      intros ? r ?. cbn. apply set_address_phone_id.
  - apply insert_clashes_fresh in Hclash as [Hk Hi].
    unfold unique_clients, inserted_client. cbn [clients]. split.
    + rewrite omap_app. apply NoDup_app. split; [done|]. split.
      * intros x Hx. cbn. unfold client_key, new_client. cbn.
        intros ->%list_elem_of_singleton. done.
      * cbn. unfold client_key, new_client. cbn. apply NoDup_singleton.
    + rewrite fmap_app. apply NoDup_app. split; [done|]. split.
      * intros x Hx. cbn. intros ->%list_elem_of_singleton. done.
      * apply NoDup_singleton.
Qed.

Lemma upsert_client_keeps_unique_witness :
  let bob := {| Client.id := 1; Client.name := "Bob";
                Client.address := Some "1 Main St"; Client.email := Some "b@x";
                Client.phone := Some "" |} in
  let bob_null := {| Client.id := 2; Client.name := "Bob";
                     Client.address := Some ""; Client.email := None;
                     Client.phone := None |} in
  let alice := {| Client.id := 3; Client.name := "Alice";
                  Client.address := Some ""; Client.email := Some "b@x";
                  Client.phone := Some "" |} in
  let d := {| counters := ∅; clients := [bob; bob_null; alice];
              clients_id_seq := 4 |} in
  let c := {| ClientIn.name := "Alice"; ClientIn.address := Some "2 Side St";
              ClientIn.email := Some "b@x"; ClientIn.phone := None |} in
  let c' := {| ClientIn.name := "Carol"; ClientIn.address := None;
               ClientIn.email := None; ClientIn.phone := None |} in
  unique_clients d ∧
  length (clients (upsert_client reliable c d).2) = 3%nat ∧
  unique_clients (upsert_client reliable c d).2 ∧
  length (clients (upsert_client reliable c' d).2) = 4%nat ∧
  unique_clients (upsert_client reliable c' d).2.
Proof.
  intros bob bob_null alice d c c'.
  assert (H : unique_clients d).
  { split; apply (bool_decide_unpack _); vm_compute; exact I. }
  split; [exact H|]. split; [reflexivity|].
  split; [exact (upsert_client_keeps_unique reliable c d H)|].
  split; [reflexivity|].
  exact (upsert_client_keeps_unique reliable c' d H).
Defined.

Lemma find_null_email (n : string) (l : list Client.t) :
  List.find (client_matches n None) l = None.
Proof.
  induction l as [|r l IH]; [done|]. cbn [List.find].
  unfold client_matches at 1.
  destruct (Client.email r); by rewrite andb_false_r.
Qed.

Lemma find_new_client (c : ClientIn.t) (d : database) :
  insert_clashes c d = false →
  List.find (λ r, Client.id r =? clients_id_seq d)
    (clients d ++ [new_client c d]) = Some (new_client c d).
Proof.
  intros H. rewrite find_app_none by (by eapply existsb_orb_false).
  cbn. by rewrite Z.eqb_refl.
Qed.

(** X11: A body with a null email never updates a row.  Either no stored row
    has the same name with the empty string as email (nor the id the serial
    hands out): the request appends a row whose email is the empty string,
    with the serial as id, and leaves every earlier row as it was.  Or there
    is such a row: the request is rejected with status 400 and the tables
    stay as they were.  In both cases the serial has advanced by one. *)
Theorem upsert_client_null_email (c : ClientIn.t) (d : database)
    (Hnull : ClientIn.email c = None) :
  let res := upsert_client reliable c d in
  let clash :=
    existsb (λ r, (Client.id r =? clients_id_seq d)
                  || client_matches (ClientIn.name c) (Some "") r) (clients d) in
  (clash = false ∧
   res.1 = Ok {| ClientOut.id := clients_id_seq d;
                 ClientOut.name := ClientIn.name c;
                 ClientOut.address := or_empty (ClientIn.address c);
                 ClientOut.email := "";
                 ClientOut.phone := or_empty (ClientIn.phone c) |} ∧
   clients res.2
   = (clients d ++
      [{| Client.id := clients_id_seq d; Client.name := ClientIn.name c;
          Client.address := Some (or_empty (ClientIn.address c));
          Client.email := Some "";
          Client.phone := Some (or_empty (ClientIn.phone c)) |}])%list ∨
   clash = true ∧
   res.1 = Raise (HTTPException 400 "Client unique constraint failed") ∧
   clients res.2 = clients d) ∧
  clients_id_seq res.2 = clients_id_seq d + 1 ∧
  counters res.2 = counters d.
Proof.
  cbv zeta.
  pose proof (find_null_email (ClientIn.name c) (clients d)) as Hf.
  rewrite <- Hnull in Hf. rewrite upsert_client_reliable, Hf.
  assert (Hclash : insert_clashes c d
                   = existsb (λ r, (Client.id r =? clients_id_seq d)
                                   || client_matches (ClientIn.name c) (Some "") r)
                       (clients d)).
  { unfold insert_clashes. by rewrite Hnull. }
  rewrite <- Hclash.
  destruct (insert_clashes c d) eqn:Hc.
  - split; [right; done|done].
  - assert (Hnew : List.find (λ r, Client.id r =? clients_id_seq d)
                     (clients (inserted_client c d)) = Some (new_client c d))
      by (by apply find_new_client).
    rewrite Hnew. cbn [fst snd].
    unfold client_out, new_client, inserted_client. cbn. rewrite Hnull. cbn.
    split; [left|done]. split; [done|]. split; [done|].
    unfold new_client. by rewrite Hnull.
Qed.

Lemma upsert_client_null_email_witness :
  let c := {| ClientIn.name := "Bob"; ClientIn.address := Some "1 Main St";
              ClientIn.email := None; ClientIn.phone := None |} in
  let d1 := (upsert_client reliable c empty_db).2 in
  ClientIn.email c = None ∧
  clients_id_seq d1 = clients_id_seq empty_db + 1 ∧
  clients_id_seq (upsert_client reliable c d1).2 = clients_id_seq d1 + 1 ∧
  (upsert_client reliable c d1).1
  = Raise (HTTPException 400 "Client unique constraint failed") ∧
  clients_id_seq (upsert_client reliable c d1).2 = 3.
Proof.
  intros c d1. assert (H : ClientIn.email c = None) by reflexivity.
  split; [exact H|].
  split; [exact (proj1 (proj2 (upsert_client_null_email c empty_db H)))|].
  split; [exact (proj1 (proj2 (upsert_client_null_email c d1 H)))|].
  split; reflexivity.
Defined.

(** X12: A body whose (name, email) matches no row, on a table whose serial is
    unused, appends exactly one row with the serial as id and the null fields
    stored as empty strings, leaves the earlier rows as they were, and
    returns that row. *)
Theorem upsert_client_insert (c : ClientIn.t) (d : database)
    (Hfind : List.find (client_matches (ClientIn.name c) (ClientIn.email c))
               (clients d) = None)
    (Hfree : insert_clashes c d = false) :
  upsert_client reliable c d
  = (Ok {| ClientOut.id := clients_id_seq d; ClientOut.name := ClientIn.name c;
           ClientOut.address := or_empty (ClientIn.address c);
           ClientOut.email := or_empty (ClientIn.email c);
           ClientOut.phone := or_empty (ClientIn.phone c) |},
     inserted_client c d) ∧
  clients (inserted_client c d) = (clients d ++ [new_client c d])%list ∧
  clients_id_seq (inserted_client c d) = clients_id_seq d + 1.
Proof.
  split; [|done]. rewrite upsert_client_reliable, Hfind, Hfree.
  unfold inserted_client at 1. cbn [clients].
  by rewrite find_new_client.
Qed.

Lemma upsert_client_insert_witness :
  let c := {| ClientIn.name := "Bob"; ClientIn.address := None;
              ClientIn.email := Some "b@x"; ClientIn.phone := None |} in
  List.find (client_matches (ClientIn.name c) (ClientIn.email c))
    (clients empty_db) = None ∧
  insert_clashes c empty_db = false ∧
  upsert_client reliable c empty_db
  = (Ok {| ClientOut.id := 1; ClientOut.name := "Bob"; ClientOut.address := "";
           ClientOut.email := "b@x"; ClientOut.phone := "" |},
     inserted_client c empty_db).
Proof.
  intros c.
  assert (H1 : List.find (client_matches (ClientIn.name c) (ClientIn.email c))
                 (clients empty_db) = None) by reflexivity.
  assert (H2 : insert_clashes c empty_db = false) by reflexivity.
  split; [exact H1|]. split; [exact H2|].
  exact (proj1 (upsert_client_insert c empty_db H1 H2)).
Defined.

(** X13: When the read-back after the commit is lost, the request raises although
    its write is already committed: the new row is in the table. *)
Theorem upsert_client_lost_read_back (c : ClientIn.t) (d : database)
    (Hfind : List.find (client_matches (ClientIn.name c) (ClientIn.email c))
               (clients d) = None)
    (Hfree : insert_clashes c d = false) :
  upsert_client (lost 3) c d = (Raise OperationalError, inserted_client c d) ∧
  inserted_client c d ≠ d.
Proof.
  split.
  - destruct d as [cs cl sq]. cbn [clients] in Hfind.
    unfold upsert_client. unfold_tx. unfold select_client_id. cbn.
    rewrite Hfind. cbn. unfold insert_client.
    unfold insert_clashes in Hfree. cbn in Hfree |- *. by rewrite Hfree.
  - intros E. apply (f_equal clients_id_seq) in E. cbn in E. lia.
Qed.

Lemma upsert_client_lost_read_back_witness :
  let c := {| ClientIn.name := "Bob"; ClientIn.address := None;
              ClientIn.email := Some "b@x"; ClientIn.phone := None |} in
  List.find (client_matches (ClientIn.name c) (ClientIn.email c))
    (clients empty_db) = None ∧
  insert_clashes c empty_db = false ∧
  upsert_client (lost 3) c empty_db
  = (Raise OperationalError, inserted_client c empty_db).
Proof.
  intros c.
  assert (H1 : List.find (client_matches (ClientIn.name c) (ClientIn.email c))
                 (clients empty_db) = None) by reflexivity.
  assert (H2 : insert_clashes c empty_db = false) by reflexivity.
  split; [exact H1|]. split; [exact H2|].
  exact (proj1 (upsert_client_lost_read_back c empty_db H1 H2)).
Defined.

Lemma upsert_client_twice_witness :
  let c1 := {| ClientIn.name := "Bob"; ClientIn.address := Some "1 Main St";
               ClientIn.email := Some "b@x"; ClientIn.phone := None |} in
  let c2 := {| ClientIn.name := "Bob"; ClientIn.address := Some "2 Side St";
               ClientIn.email := Some "b@x"; ClientIn.phone := None |} in
  let out1 := {| ClientOut.id := 1; ClientOut.name := "Bob";
                 ClientOut.address := "1 Main St"; ClientOut.email := "b@x";
                 ClientOut.phone := "" |} in
  let d1 := (upsert_client reliable c1 empty_db).2 in
  upsert_client reliable c1 empty_db = (Ok out1, d1) ∧
  ∃ out2 d2,
    upsert_client reliable c2 d1 = (Ok out2, d2) ∧
    ClientOut.id out2 = 1 ∧
    ClientOut.address out2 = "2 Side St" ∧
    length (clients d2) = length (clients d1).
Proof.
  intros c1 c2 out1 d1.
  assert (H : upsert_client reliable c1 empty_db = (Ok out1, d1)) by reflexivity.
  split; [exact H|].
  exact (upsert_client_twice c1 c2 empty_db d1 "b@x" out1 eq_refl eq_refl
           eq_refl H).
Defined.

#[global] Instance name_le_total : Total name_le.
Proof. intros a b. apply String.leb_total. Qed.

Lemma list_clients_rows (d : database) :
  ∃ rows,
    list_clients reliable d = (Ok rows, d) ∧
    rows ≡ₚ client_out <$> clients d ∧
    Sorted (λ a b, String.leb (ClientOut.name a) (ClientOut.name b) = true) rows.
Proof.
  destruct d as [cs cl sq].
  eexists. split; [reflexivity|]. split.
  - apply fmap_Permutation, merge_sort_Permutation.
  - eapply Sorted_fmap; [|apply (Sorted_merge_sort name_le)]. done.
Qed.

(** X15: The client listing is read-only under every fault plan; on a store that
    answers it returns one entry per stored row, nulls rendered as empty
    strings, in ascending order of the name. *)
Theorem list_clients_sorted_complete (d : database) :
  (∀ fault, (list_clients fault d).2 = d) ∧
  ∃ rows,
    list_clients reliable d = (Ok rows, d) ∧
    rows ≡ₚ client_out <$> clients d ∧
    Sorted (λ a b, String.leb (ClientOut.name a) (ClientOut.name b) = true) rows.
Proof.
  split; [|apply list_clients_rows].
  intros fault. destruct d as [cs cl sq].
  unfold list_clients. unfold_tx. by destruct (fault 0%nat).
Qed.

(** X16: What a request returned is what the listing shows afterwards. *)
Theorem list_clients_after_upsert (c : ClientIn.t) (d d' : database)
    (out : ClientOut.t)
    (Hok : upsert_client reliable c d = (Ok out, d')) :
  ∃ rows, list_clients reliable d' = (Ok rows, d') ∧ out ∈ rows.
Proof.
  destruct (list_clients_rows d') as (rows & Hrun & HP & _).
  exists rows. split; [done|]. rewrite HP.
  rewrite upsert_client_reliable in Hok.
  destruct (List.find _ (clients d)) as [r0|]; cbv zeta in Hok.
  - destruct (List.find _ _) as [r|] eqn:Hr in Hok; [|done].
    injection Hok as <- <-. apply List.find_some in Hr as [Hin _].
    apply list_elem_of_fmap. exists r. split; [done|].
    by apply list_elem_of_In.
  - destruct (insert_clashes c d); [done|].
    destruct (List.find _ _) as [r|] eqn:Hr in Hok; [|done].
    injection Hok as <- <-. apply List.find_some in Hr as [Hin _].
    apply list_elem_of_fmap. exists r. split; [done|].
    by apply list_elem_of_In.
Qed.

Lemma list_clients_after_upsert_witness :
  let c := {| ClientIn.name := "Bob"; ClientIn.address := None;
              ClientIn.email := Some "b@x"; ClientIn.phone := None |} in
  let out := {| ClientOut.id := 1; ClientOut.name := "Bob";
                ClientOut.address := ""; ClientOut.email := "b@x";
                ClientOut.phone := "" |} in
  let d' := (upsert_client reliable c empty_db).2 in
  upsert_client reliable c empty_db = (Ok out, d') ∧
  ∃ rows, list_clients reliable d' = (Ok rows, d') ∧ out ∈ rows.
Proof.
  intros c out d'.
  assert (H : upsert_client reliable c empty_db = (Ok out, d')) by reflexivity.
  split; [exact H|]. exact (list_clients_after_upsert c empty_db d' out H).
Defined.

(** ** The connection string *)

Lemma DATABASE_URL_unfold (environ : gmap string string) :
  DATABASE_URL environ
  = let raw := getenv environ "DATABASE_URL" "" in
    if String.eqb raw "" then Raise RuntimeError
    else Ok (with_driver
               (if contains "sslmode=" raw then raw
                else raw +:+ (if contains "?" raw then "&" else "?")
                         +:+ "sslmode=require")).
Proof.
  unfold DATABASE_URL. cbv zeta.
  destruct (String.eqb _ ""); [done|].
  rewrite with_driver_replace1. by destruct (contains "sslmode=" _).
Qed.

Lemma with_driver_scheme (s : string) :
  startswith (with_driver s) "postgresql://" = false.
Proof.
  unfold with_driver, startswith.
  destruct (String.prefix "postgresql://" s) eqn:Hp; [|done].
  rewrite !append_String, append_empty. reflexivity.
Qed.

(** X17: The server refuses to start, with a [RuntimeError], exactly when the
    variable is unset or empty; it never fails in another way. *)
Theorem DATABASE_URL_raises_iff (environ : gmap string string) :
  (DATABASE_URL environ = Raise RuntimeError ↔
   environ !! "DATABASE_URL" = None ∨ environ !! "DATABASE_URL" = Some "") ∧
  (∀ e, DATABASE_URL environ = Raise e → e = RuntimeError).
Proof.
  rewrite DATABASE_URL_unfold. unfold getenv. cbv zeta.
  destruct (environ !! "DATABASE_URL") as [raw|]; cbn.
  - destruct (String.eqb_spec raw "") as [->|Hne].
    + split; [split; [by right|done]|]. by intros e [= <-].
    + split; [|done]. split; [done|]. intros [?|[= ?]]; done.
  - split; [split; [by left|done]|]. by intros e [= <-].
Qed.

(** X18: The URL the server uses is a fixed point of the normalization: it is not
    empty, it does not start with the scheme [postgresql://] of the default
    driver, and normalizing it again returns it unchanged. *)
Theorem DATABASE_URL_fixed_point (environ : gmap string string) (url : string)
    (Hok : DATABASE_URL environ = Ok url) :
  url ≠ "" ∧
  startswith url "postgresql://" = false ∧
  DATABASE_URL (<["DATABASE_URL" := url]> environ) = Ok url.
Proof.
  rewrite DATABASE_URL_unfold in Hok. cbv zeta in Hok.
  destruct (String.eqb _ ""); [done|]. injection Hok as <-.
  set (raw' := if contains "sslmode=" _ then _ else _).
  assert (Hssl : contains "sslmode=" (with_driver raw') = true).
  { apply (with_driver_contains "lmode="). subst raw'.
    destruct (contains "sslmode=" _) eqn:Hc; [done|].
    apply contains_app_r. by destruct (contains "?" _). }
  assert (Hne : with_driver raw' ≠ "").
  { intros E. by rewrite E in Hssl. }
  split; [done|]. split; [apply with_driver_scheme|].
  rewrite DATABASE_URL_unfold. unfold getenv. rewrite lookup_insert_eq.
  cbn [default from_option id]. cbv zeta.
  destruct (String.eqb_spec (with_driver raw') "") as [|_]; [done|].
  rewrite Hssl. f_equal. unfold with_driver at 1.
  by rewrite with_driver_scheme.
Qed.

Lemma DATABASE_URL_fixed_point_witness :
  DATABASE_URL {[ "DATABASE_URL" := "postgresql://u@h/db" ]}
  = Ok "postgresql+psycopg://u@h/db?sslmode=require" ∧
  DATABASE_URL (<["DATABASE_URL" := "postgresql+psycopg://u@h/db?sslmode=require"]>
                  {[ "DATABASE_URL" := "postgresql://u@h/db" ]})
  = Ok "postgresql+psycopg://u@h/db?sslmode=require".
Proof.
  assert (H : DATABASE_URL {[ "DATABASE_URL" := "postgresql://u@h/db" ]}
              = Ok "postgresql+psycopg://u@h/db?sslmode=require") by reflexivity.
  split; [exact H|].
  exact (proj2 (proj2 (DATABASE_URL_fixed_point _ _ H))).
Defined.


(** ** History *)

(** X19: The history is append-only.  A request that raises leaves every row
    as it was; if its insert was reached, the id the insert drew is gone, so
    the serial has advanced by one, and otherwise the table is untouched.  A
    request that returns has added exactly one row at the end, with the
    serial as id, the given time and the body's fields (nulls stored as
    empty strings), every earlier row being kept as it was; the response
    carries the id, the time and the body as sent. *)
Theorem add_history_appends (fault : nat → bool) (utcnow : Z)
    (h : HistoryIn.t) (tbl tbl' : history_table) (r : result HistoryOut.t)
    (Hrun : add_history fault utcnow h tbl = (r, tbl')) :
  (∀ e, r = Raise e →
     history tbl' = history tbl ∧
     (fault 0%nat = true ∧ e = OperationalError ∧ tbl' = tbl ∨
      fault 0%nat = false ∧
      history_id_seq tbl' = history_id_seq tbl + 1 ∧
      (e = OperationalError ∧ fault 1%nat = true ∨ e = IntegrityError))) ∧
  (∀ out, r = Ok out →
     history tbl'
     = (history tbl ++
        [{| History.id := history_id_seq tbl; History.ts := utcnow;
            History.type := HistoryIn.type h;
            History.number := HistoryIn.number h;
            History.client := Some (or_empty (HistoryIn.client h));
            History.total_ttc := Some (or_empty (HistoryIn.total_ttc h));
            History.path := Some (or_empty (HistoryIn.path h)) |}])%list ∧
     history_id_seq tbl' = history_id_seq tbl + 1 ∧
     out = {| HistoryOut.id := history_id_seq tbl; HistoryOut.ts := utcnow;
              HistoryOut.type := HistoryIn.type h;
              HistoryOut.number := HistoryIn.number h;
              HistoryOut.client := HistoryIn.client h;
              HistoryOut.total_ttc := HistoryIn.total_ttc h;
              HistoryOut.path := HistoryIn.path h |} ∧
     (∀ x, x ∈ history tbl → History.id x ≠ HistoryOut.id out)).
Proof.
  revert Hrun. unfold add_history, insert_history.
  destruct (fault 0%nat).
  { intros [= <- <-]. split; [|done]. intros e [= <-]. split; [done|]. by left. }
  destruct (existsb _ (history tbl)) eqn:Hfree.
  { intros [= <- <-]. split; [|done]. intros e [= <-]. split; [done|].
    right. split; [done|]. split; [done|]. by right. }
  destruct (fault 1%nat); intros [= <- <-].
  { split; [|done]. intros e [= <-]. split; [done|].
    right. split; [done|]. split; [done|]. by left. }
  split; [done|]. intros out [= <-]. cbn. repeat split.
  intros x Hx E. apply list_elem_of_In in Hx.
  assert (existsb (λ r, History.id r =? history_id_seq tbl) (history tbl) = true)
    as Ht; [|congruence].
  apply existsb_exists. exists x. split; [done|]. by apply Z.eqb_eq.
Qed.

Lemma add_history_appends_witness :
  let h := {| HistoryIn.type := "invoice"; HistoryIn.number := "INV-00100";
              HistoryIn.client := None; HistoryIn.total_ttc := Some "12.00";
              HistoryIn.path := None |} in
  let tbl := {| history := []; history_id_seq := 1 |} in
  let out := {| HistoryOut.id := 1; HistoryOut.ts := 1000;
                HistoryOut.type := "invoice"; HistoryOut.number := "INV-00100";
                HistoryOut.client := None; HistoryOut.total_ttc := Some "12.00";
                HistoryOut.path := None |} in
  let row := {| History.id := 1; History.ts := 1000; History.type := "invoice";
                History.number := "INV-00100"; History.client := Some "";
                History.total_ttc := Some "12.00"; History.path := Some "" |} in
  let tbl' := {| history := [row]; history_id_seq := 2 |} in
  let lost_commit := {| history := []; history_id_seq := 2 |} in
  (add_history reliable 1000 h tbl = (Ok out, tbl') ∧
   history tbl' = [row]) ∧
  (add_history (lost 1) 1000 h tbl = (Raise OperationalError, lost_commit) ∧
   history lost_commit = history tbl).
Proof.
  intros h tbl out row tbl' lost_commit.
  assert (H : add_history reliable 1000 h tbl = (Ok out, tbl')) by reflexivity.
  assert (H' : add_history (lost 1) 1000 h tbl
               = (Raise OperationalError, lost_commit)) by reflexivity.
  split.
  - split; [exact H|].
    exact (proj1 (proj2 (add_history_appends reliable 1000 h tbl tbl' (Ok out) H)
                    out eq_refl)).
  - split; [exact H'|].
    exact (proj1 (proj1 (add_history_appends (lost 1) 1000 h tbl lost_commit
                           (Raise OperationalError) H')
                    OperationalError eq_refl)).
Defined.

#[global] Instance ts_ge_total : Total ts_ge.
Proof. intros a b. unfold ts_ge. lia. Qed.

#[global] Instance ts_ge_trans : Transitive ts_ge.
Proof. intros a b c. unfold ts_ge. lia. Qed.

Lemma StronglySorted_take_drop {A} (R : relation A) (l : list A) (k : nat) :
  StronglySorted R l →
  StronglySorted R (take k l) ∧
  ∀ a b, a ∈ take k l → b ∈ drop k l → R a b.
Proof.
  intros Hl. revert k. induction Hl as [|x l Hl IH Hx]; intros [|k]; cbn.
  - split; [constructor|]. by intros a b Ha%elem_of_nil.
  - split; [constructor|]. by intros a b Ha%elem_of_nil.
  - split; [constructor|]. by intros a b Ha%elem_of_nil.
  - destruct (IH k) as [IH1 IH2]. split.
    + constructor; [done|]. apply Forall_forall. intros y Hy.
      rewrite Forall_forall in Hx. apply Hx. by eapply subseteq_take.
    + intros a b [->|Ha]%elem_of_cons Hb; [|by apply IH2].
      rewrite Forall_forall in Hx. apply Hx. by eapply subseteq_drop.
Qed.

(** X20: The history listing is read-only.  With a limit between 0 and the
    largest [bigint] it returns [min limit n] of the [n] stored rows, latest
    first, and no omitted row is later than a returned one; a larger limit
    is refused with a [DataError]. *)
Theorem list_history_latest (limit : Z) (tbl : history_table)
    (Hlimit : 0 ≤ limit ≤ 9223372036854775807) :
  (∀ fault lim, (list_history fault lim tbl).2 = tbl) ∧
  (∀ lim, 9223372036854775807 < lim →
          (list_history reliable lim tbl).1 = Raise DataError) ∧
  ∃ rows rest,
    list_history reliable limit tbl = (Ok rows, tbl) ∧
    length rows = Nat.min (Z.to_nat limit) (length (history tbl)) ∧
    history_out <$> history tbl ≡ₚ rows ++ rest ∧
    StronglySorted (λ a b, HistoryOut.ts b ≤ HistoryOut.ts a) rows ∧
    (∀ a b, a ∈ rows → b ∈ rest → HistoryOut.ts b ≤ HistoryOut.ts a).
Proof.
  split.
  { intros fault lim. unfold list_history.
    destruct (fault 0%nat); [done|]. destruct (lim <? 0); [done|].
    by destruct (INT8_MAX <? lim). }
  split.
  { intros lim Hlim. unfold list_history, INT8_MAX. cbn [reliable].
    destruct (Z.ltb_spec lim 0); [lia|].
    by destruct (Z.ltb_spec 9223372036854775807 lim); [|lia]. }
  unfold list_history, INT8_MAX. cbn [reliable].
  destruct (Z.ltb_spec limit 0); [lia|].
  destruct (Z.ltb_spec 9223372036854775807 limit); [lia|].
  set (L := merge_sort ts_ge (history tbl)).
  assert (HP : L ≡ₚ history tbl) by apply merge_sort_Permutation.
  assert (HS : StronglySorted ts_ge L) by apply (StronglySorted_merge_sort _).
  destruct (StronglySorted_take_drop ts_ge L (Z.to_nat limit) HS) as [HS1 HS2].
  exists (history_out <$> take (Z.to_nat limit) L),
         (history_out <$> drop (Z.to_nat limit) L).
  split; [done|]. repeat split.
  - by rewrite length_fmap, length_take, HP.
  - by rewrite <- fmap_app, take_drop, HP.
  - clear HS2. induction HS1 as [|x l Hl IH Hx]; [constructor|].
    cbn. constructor; [done|]. apply Forall_fmap.
    eapply Forall_impl; [exact Hx|]. done.
  - intros a b (x & -> & Hx)%list_elem_of_fmap (y & -> & Hy)%list_elem_of_fmap.
    exact (HS2 x y Hx Hy).
Qed.

Lemma list_history_latest_witness :
  let tbl := {| history :=
                  [{| History.id := 1; History.ts := 10; History.type := "a";
                      History.number := "1"; History.client := Some "";
                      History.total_ttc := Some ""; History.path := Some "" |};
                   {| History.id := 2; History.ts := 30; History.type := "a";
                      History.number := "2"; History.client := Some "";
                      History.total_ttc := Some ""; History.path := Some "" |};
                   {| History.id := 3; History.ts := 20; History.type := "a";
                      History.number := "3"; History.client := Some "";
                      History.total_ttc := Some ""; History.path := Some "" |}];
                history_id_seq := 4 |} in
  0 ≤ 2 ≤ 9223372036854775807 ∧
  ∃ rows rest : list HistoryOut.t,
    list_history reliable 2 tbl = (Ok rows, tbl) ∧
    HistoryOut.id <$> rows = [2; 3] ∧
    length rows = 2%nat ∧
    (∀ a b, a ∈ rows → b ∈ rest → HistoryOut.ts b ≤ HistoryOut.ts a).
Proof.
  intros tbl. assert (H : 0 ≤ 2 ≤ 9223372036854775807) by lia.
  split; [exact H|].
  destruct (list_history_latest 2 tbl H)
    as (_ & _ & rows & rest & Hr & Hl & _ & _ & Hd).
  exists rows, rest. split; [exact Hr|]. split; [|split; [exact Hl | exact Hd]].
  assert (Hrun : list_history reliable 2 tbl
                 = (Ok (history_out <$>
                          [{| History.id := 2; History.ts := 30;
                              History.type := "a"; History.number := "2";
                              History.client := Some "";
                              History.total_ttc := Some "";
                              History.path := Some "" |};
                           {| History.id := 3; History.ts := 20;
                              History.type := "a"; History.number := "3";
                              History.client := Some "";
                              History.total_ttc := Some "";
                              History.path := Some "" |}]), tbl))
    by reflexivity.
  rewrite Hrun in Hr. injection Hr as <-. reflexivity.
Defined.

Lemma add_history_ok (fault : nat → bool) (utcnow : Z) (h : HistoryIn.t)
    (tbl tbl' : history_table) (out : HistoryOut.t) :
  add_history fault utcnow h tbl = (Ok out, tbl') →
  history tbl'
  = (history tbl ++ [history_row (history_id_seq tbl) utcnow h])%list ∧
  HistoryOut.id out = history_id_seq tbl.
Proof.
  unfold add_history, insert_history.
  destruct (fault 0%nat); [done|].
  destruct (existsb _ (history tbl)); [done|].
  destruct (fault 1%nat); [done|]. by intros [= <- <-].
Qed.

(** X21: An entry added at a time later than every stored one is the first the
    listing returns, for every limit from 1 to the largest [bigint]; the
    listing shows its null fields as empty strings. *)
Theorem list_history_after_add (utcnow limit : Z) (h : HistoryIn.t)
    (tbl tbl' : history_table) (out : HistoryOut.t)
    (Hlater : ∀ x, x ∈ history tbl → History.ts x < utcnow)
    (Hlimit : 1 ≤ limit ≤ 9223372036854775807)
    (Hadd : add_history reliable utcnow h tbl = (Ok out, tbl')) :
  ∃ rows,
    list_history reliable limit tbl' = (Ok rows, tbl') ∧
    head rows
    = Some {| HistoryOut.id := HistoryOut.id out; HistoryOut.ts := utcnow;
              HistoryOut.type := HistoryIn.type h;
              HistoryOut.number := HistoryIn.number h;
              HistoryOut.client := Some (or_empty (HistoryIn.client h));
              HistoryOut.total_ttc := Some (or_empty (HistoryIn.total_ttc h));
              HistoryOut.path := Some (or_empty (HistoryIn.path h)) |}.
Proof.
  destruct (add_history_ok _ _ _ _ _ _ Hadd) as [Hhist Hid]. rewrite Hid.
  change (Some _) with
    (Some (history_out (history_row (history_id_seq tbl) utcnow h))).
  unfold list_history, INT8_MAX. cbn [reliable].
  destruct (Z.ltb_spec limit 0); [lia|].
  destruct (Z.ltb_spec 9223372036854775807 limit); [lia|].
  eexists. split; [reflexivity|].
  set (new := history_row (history_id_seq tbl) utcnow h) in *.
  set (L := merge_sort ts_ge (history tbl')).
  assert (HP : L ≡ₚ history tbl') by apply merge_sort_Permutation.
  assert (HS : StronglySorted ts_ge L) by apply (StronglySorted_merge_sort _).
  rewrite Hhist in HP.
  assert (Hnew : new ∈ L).
  { rewrite HP. apply elem_of_app. right. apply elem_of_cons. by left. }
  destruct L as [|x L']; [by apply elem_of_nil in Hnew|].
  destruct (Z.to_nat limit) as [|k] eqn:Hk; [lia|]. cbn. do 2 f_equal.
  assert (Hx : x ∈ (history tbl ++ [new])%list).
  { rewrite <- HP. apply elem_of_cons. by left. }
  apply elem_of_app in Hx as [Hx|Hx];
    [|apply list_elem_of_singleton in Hx; by rewrite Hx].
  apply Hlater in Hx. apply elem_of_cons in Hnew as [->|Hnew]; [done|].
  apply StronglySorted_inv in HS as [_ HF]. rewrite Forall_forall in HF.
  apply HF in Hnew. unfold ts_ge in Hnew. cbn in Hnew. lia.
Qed.

Lemma list_history_after_add_witness :
  let h := {| HistoryIn.type := "invoice"; HistoryIn.number := "INV-00100";
              HistoryIn.client := None; HistoryIn.total_ttc := None;
              HistoryIn.path := None |} in
  let tbl := {| history :=
                  [{| History.id := 1; History.ts := 10; History.type := "a";
                      History.number := "1"; History.client := Some "";
                      History.total_ttc := Some ""; History.path := Some "" |};
                   {| History.id := 2; History.ts := 30; History.type := "a";
                      History.number := "2"; History.client := Some "";
                      History.total_ttc := Some ""; History.path := Some "" |}];
                history_id_seq := 3 |} in
  let out := {| HistoryOut.id := 3; HistoryOut.ts := 1000;
                HistoryOut.type := "invoice"; HistoryOut.number := "INV-00100";
                HistoryOut.client := None; HistoryOut.total_ttc := None;
                HistoryOut.path := None |} in
  let tbl' := (add_history reliable 1000 h tbl).2 in
  (∀ x, x ∈ history tbl → History.ts x < 1000) ∧
  1 ≤ default_limit ≤ 9223372036854775807 ∧
  add_history reliable 1000 h tbl = (Ok out, tbl') ∧
  ∃ rows,
    list_history reliable default_limit tbl' = (Ok rows, tbl') ∧
    head rows
    = Some {| HistoryOut.id := 3; HistoryOut.ts := 1000;
              HistoryOut.type := "invoice"; HistoryOut.number := "INV-00100";
              HistoryOut.client := Some ""; HistoryOut.total_ttc := Some "";
              HistoryOut.path := Some "" |}.
Proof.
  intros h tbl out tbl'.
  assert (H1 : ∀ x, x ∈ history tbl → History.ts x < 1000).
  { intros x Hx. cbn in Hx.
    apply elem_of_cons in Hx as [->|Hx]; [cbn; lia|].
    apply elem_of_cons in Hx as [->|Hx]; [cbn; lia|].
    by apply elem_of_nil in Hx. }
  assert (H2 : 1 ≤ default_limit ≤ 9223372036854775807)
    by (unfold default_limit; lia).
  assert (H3 : add_history reliable 1000 h tbl = (Ok out, tbl')) by reflexivity.
  split; [exact H1|]. split; [exact H2|]. split; [exact H3|].
  exact (list_history_after_add 1000 default_limit h tbl tbl' out H1 H2 H3).
Defined.
